(** * Money and Currency: a shallow embedding of the TypeScript library

  The library has two value classes.  [Currency] wraps an entry of the
  currency table of the package [@dinero.js/currencies]; [Money] pairs an
  [amount] with a [Currency].  Amounts are JavaScript numbers, that is
  IEEE-754 binary64 values, and every arithmetic step of the source
  ([-], [/], [*], [**], [>], [<], [===], [Math.trunc], [isNaN],
  [parseFloat], [toFixed]) is embedded with its binary64 meaning, on the
  bit-level specification of the Standard Library ([SpecFloat]).

  A text is the sequence of its UTF-16 code units, and the embedding
  covers the texts whose code units are all below 256 (the Latin-1
  range), one character per unit; the text handled by the library
  (digits, signs, a point, a space, currency codes) is ASCII.

  The currency table is the module object that [currency.ts] imports.
  Its own properties are the currency entries, and whatever else the
  module system puts there (a module marker, say); being an ordinary
  object, a read [currencies[key]] also finds the members it inherits
  from [Object.prototype] (see [Currency.parse]). *)

From Stdlib Require Import ZArith Lia Bool List String Ascii.
From Stdlib Require Import Floats.SpecFloat.
From stdpp Require Import base option list gmap strings.

Local Open Scope Z_scope.

(** ** Exceptions and the outcome of a call *)

(** The exception classes of the source, each with the message its
  constructor hands to [Error].  [RangeError] is thrown by the host's
  [toFixed]; [NotModelled] marks the one host behaviour left out of the
  embedding (see [Number.toFixed]). *)
Inductive exception : Type :=
| MoneyException (message : string)
| MoneyParseException (message : string)
| InvalidCurrencyException (message : string)
| RangeError
| NotModelled.

Inductive result (A : Type) : Type :=
| Ok (a : A)
| Throw (e : exception).

Arguments Ok {A} a.
Arguments Throw {A} e.

Definition bind {A B : Type} (r : result A) (k : A -> result B) : result B :=
match r with
| Ok a => k a
| Throw e => Throw e
end.

#[global] Instance result_bind : MBind result := fun A B k r => bind r k.

(** [new MoneyParseException(text)] *)
Definition new_MoneyParseException (text : string) : exception :=
MoneyParseException ("Impossible to parse money: " ++ text).

(** [new InvalidCurrencyException(code)] *)
Definition new_InvalidCurrencyException (code : string) : exception :=
InvalidCurrencyException ("Invalid currency: '" ++ code ++ "'").

(** ** JavaScript numbers *)

Module Number.

Definition prec : Z := 53.
Definition emax : Z := 1024.

(** A number is a binary64 value: a signed zero, a signed infinity, NaN,
    or [(-1)^s * m * 2^e] in canonical form. *)
Definition number : Type := spec_float.

Definition is_number (x : number) : Prop := valid_binary prec emax x = true.

(** The number an integer literal or integer result denotes: the binary64
    value nearest to [z] (ties to even), [+0] for [0]. *)
Definition of_Z (z : Z) : number := binary_normalize prec emax z 0 false.

Definition MAX_SAFE_INTEGER : number := of_Z (2 ^ 53 - 1).
Definition MIN_SAFE_INTEGER : number := of_Z (- (2 ^ 53 - 1)).
Definition zero : number := of_Z 0.

(** [x - y], [x * y], [x / y] *)
Definition sub (x y : number) : number := SFsub prec emax x y.
Definition mul (x y : number) : number := SFmul prec emax x y.
Definition div (x y : number) : number := SFdiv prec emax x y.

(** [x < y], [x > y], [x === y] *)
Definition lt (x y : number) : bool := SFltb x y.
Definition gt (x y : number) : bool := SFltb y x.
Definition strict_equals (x y : number) : bool := SFeqb x y.

Definition isNaN (x : number) : bool :=
  match x with
  | S754_nan => true
  | _ => false
  end.

(** [base ** exponent] for the integer operands of the currency table:
    the number nearest to the power (the power itself below [2^53]). *)
Definition exponentiate (base : positive) (exponent : nat) : number :=
  of_Z (Z.pos base ^ Z.of_nat exponent).

(** [base ** exponent] for operands read from an object that may lack
    them: [undefined] converts to NaN, and a power with a NaN operand is
    NaN, except that every base to the exponent [0] is [1]. *)
Definition exponentiate_values (base : option positive) (exponent : option nat) : number :=
  match base, exponent with
  | Some b, Some e => exponentiate b e
  | None, Some O => of_Z 1
  | _, _ => S754_nan
  end.

(** [Math.trunc]: the integral part, towards zero, the sign kept. *)
Definition trunc (x : number) : number :=
  match x with
  | S754_finite s m e =>
      if 0 <=? e then x
      else match Z.pos m / 2 ^ (- e) with
           | Z.pos q => binary_normalize prec emax (cond_Zopp s (Z.pos q)) 0 s
           | _ => S754_zero s
           end
  | _ => x
  end.

(** The integer a number is, when it is one. *)
Definition to_Z (x : number) : option Z :=
  match x with
  | S754_zero _ => Some 0
  | S754_finite s m e =>
      if 0 <=? e then Some (cond_Zopp s (Z.pos m * 2 ^ e))
      else if Z.pos m mod 2 ^ (- e) =? 0
           then Some (cond_Zopp s (Z.pos m / 2 ^ (- e)))
           else None
  | _ => None
  end.

(** The exact order between the value of a number and an integer bound;
    NaN is not ordered. *)
Definition compare_Z (x : number) (b : Z) : option comparison :=
  match x with
  | S754_nan => None
  | S754_infinity s => Some (if s then Lt else Gt)
  | S754_zero _ => Some (0 ?= b)
  | S754_finite s m e =>
      if 0 <=? e then Some (cond_Zopp s (Z.pos m) * 2 ^ e ?= b)
      else Some (cond_Zopp s (Z.pos m) ?= b * 2 ^ (- e))
  end.

(** *** Decimal digits *)

Definition digit_char (d : Z) : ascii := ascii_of_N (Z.to_N (48 + d)).

Definition digit_value (c : ascii) : option Z :=
  let n := Z.of_N (N_of_ascii c) in
  if (48 <=? n) && (n <=? 57) then Some (n - 48) else None.

(** The digits of [n], most significant first, in front of [acc]. *)
Fixpoint digits_fuel (fuel : nat) (n : Z) (acc : list ascii) : list ascii :=
  match fuel with
  | O => acc
  | S fuel' =>
      let acc' := digit_char (n mod 10) :: acc in
      if n / 10 =? 0 then acc' else digits_fuel fuel' (n / 10) acc'
  end.

(** The decimal representation of [n >= 0], no leading zero, ["0"] for 0.
    A number has no more decimal than binary digits. *)
Definition decimal_digits (n : Z) : list ascii :=
  digits_fuel (S (Z.to_nat (Z.log2 n))) n [].

(** *** [Number.prototype.toFixed] *)

(** For [x = m * 2^e > 0]: the integer [n] for which [n / 10^f - x] is as
    close to zero as possible, the larger one if there are two. *)
Definition nearest_scaled (m : positive) (e : Z) (f : nat) : Z :=
  if 0 <=? e then Z.pos m * 2 ^ e * 10 ^ Z.of_nat f
  else (2 * (Z.pos m * 10 ^ Z.of_nat f) + 2 ^ (- e)) / (2 * 2 ^ (- e)).

(** Steps 10.b-10.d of [toFixed]: the digits of [n], zero-padded on the
    left to [f + 1] characters, with a point before the last [f]. *)
Definition fixed_digits (n : Z) (f : nat) : list ascii :=
  let m := decimal_digits n in
  match f with
  | O => m
  | S _ =>
      let k := length m in
      let m := if (k <=? f)%nat then replicate (f + 1 - k)%nat "0"%char ++ m else m in
      let k := length m in
      take (k - f)%nat m ++ "."%char :: drop (k - f)%nat m
  end.

(** [x.toFixed(f)].  A value of [10^21] or more is printed by the host's
    general number-to-string conversion (exponential notation), which is
    not part of this embedding: [NotModelled].  No amount that a [Money]
    can hold reaches it. *)
Definition toFixed (x : number) (f : nat) : result string :=
  if (100 <? f)%nat then Throw RangeError
  else match x with
       | S754_nan => Ok "NaN"%string
       | S754_infinity s => Ok (if s then "-Infinity" else "Infinity")%string
       | S754_zero _ => Ok (string_of_list_ascii (fixed_digits 0 f))
       | S754_finite s m e =>
           if (0 <=? e) && (10 ^ 21 <=? Z.pos m * 2 ^ e) then Throw NotModelled
           else
             let digits := fixed_digits (nearest_scaled m e f) f in
             Ok (string_of_list_ascii (if s then "-"%char :: digits else digits))
       end.

(** *** [parseFloat] *)

(** White space and line terminators, which [parseFloat] skips at the
    start.  Below 256 they are the tab, the line feed, the vertical tab,
    the form feed, the carriage return (9 to 13), the space (32) and the
    no-break space (160); the others (U+FEFF, U+2028, U+2029 and the
    space separators from U+1680 on) are beyond the texts of this
    embedding. *)
Definition is_white_space (c : ascii) : bool :=
  let n := N_of_ascii c in
  ((9 <=? n) && (n <=? 13) || (n =? 32) || (n =? 160))%N.

Fixpoint trim_start (s : string) : string :=
  match s with
  | String c s' => if is_white_space c then trim_start s' else s
  | EmptyString => s
  end.

(** The longest run of digits at the start of [s]: how many there are,
    the integer they write, and the rest of [s]. *)
Fixpoint take_digits (s : string) (count : nat) (value : Z) : nat * Z * string :=
  match s with
  | String c s' =>
      match digit_value c with
      | Some d => take_digits s' (S count) (10 * value + d)
      | None => (count, value, s)
      end
  | EmptyString => (count, value, s)
  end.

(** The exponent part [e|E [+|-] digits] at the start of [s], [0] when
    there is none (an [e] with no digit after it is not part of the
    literal). *)
Definition exponent_part (s : string) : Z :=
  match s with
  | String c s' =>
      if (c =? "e")%char || (c =? "E")%char then
        match s' with
        | String "+" s'' =>
            let '(k, v, _) := take_digits s'' 0 0 in
            if (k =? 0)%nat then 0 else v
        | String "-" s'' =>
            let '(k, v, _) := take_digits s'' 0 0 in
            if (k =? 0)%nat then 0 else - v
        | _ =>
            let '(k, v, _) := take_digits s' 0 0 in
            if (k =? 0)%nat then 0 else v
        end
      else 0
  | EmptyString => 0
  end.

(** The number nearest to [(-1)^s * m * 10^k]. *)
Definition of_decimal (s : bool) (m : Z) (k : Z) : number :=
  match m with
  | Z.pos p =>
      if 0 <=? k then binary_normalize prec emax (cond_Zopp s (m * 10 ^ k)) 0 s
      else SFdiv prec emax (S754_finite s p 0)
                           (S754_finite false (Z.to_pos (10 ^ (- k))) 0)
  | _ => S754_zero s
  end.

(** The unsigned part of a decimal literal. *)
Definition parse_unsigned (s : bool) (text : string) : number :=
  if String.prefix "Infinity" text then S754_infinity s
  else
    let '(ni, vi, rest) := take_digits text 0 0 in
    match rest with
    | String "." rest' =>
        let '(nf, v, rest'') := take_digits rest' 0 vi in
        if (ni + nf =? 0)%nat then S754_nan
        else of_decimal s v (exponent_part rest'' - Z.of_nat nf)
    | _ =>
        if (ni =? 0)%nat then S754_nan
        else of_decimal s vi (exponent_part rest)
    end.

(** [parseFloat(text)]: the number written by the longest prefix of the
    trimmed text that is a decimal literal, NaN when there is none. *)
Definition parseFloat (text : string) : number :=
  match trim_start text with
  | String "-" s => parse_unsigned true s
  | String "+" s => parse_unsigned false s
  | s => parse_unsigned false s
  end.

End Number.

Import Number.

(** ** Strings *)

Module JsString.

(** [text.split(sep)] for a one-character separator: the pieces between
  the occurrences of [sep], all of them; a text without [sep] is its own
  single piece. *)
Fixpoint split (sep : ascii) (text : string) : list string :=
match text with
| EmptyString => [EmptyString]
| String c rest =>
    if (c =? sep)%char then EmptyString :: split sep rest
    else match split sep rest with
         | piece :: pieces => String c piece :: pieces
         | [] => [String c EmptyString]
         end
end.

(** [text.includes(c)] for a one-character [c]. *)
Fixpoint includes (c : ascii) (text : string) : bool :=
match text with
| EmptyString => false
| String c' rest => (c' =? c)%char || includes c rest
end.

(** A value that is a string or [undefined], as a property key or inside a
  template literal: [undefined] reads ["undefined"]. *)
Definition to_string (v : option string) : string :=
match v with
| Some s => s
| None => "undefined"
end.

End JsString.

(** ** Currency *)

(** Modelled from the spec: the entries of the currency-metadata table
  (package [@dinero.js/currencies], not part of the repository): a code,
  a base that is a positive integer and an exponent that is a
  non-negative integer. *)
Record DineroCurrency : Type := {
dinero_code : string;
dinero_base : positive;
dinero_exponent : nat
}.

(** The names that a read on an ordinary object resolves through its
  prototype chain when the object has no property of its own under them:
  the members of [Object.prototype]. *)
Definition Object_prototype : list string :=
["constructor"; "hasOwnProperty"; "isPrototypeOf"; "propertyIsEnumerable";
 "toLocaleString"; "toString"; "valueOf"; "__proto__";
 "__defineGetter__"; "__defineSetter__"; "__lookupGetter__"; "__lookupSetter__"].

(** What a read [currencies[key]] can hand to [new Currency]: an entry of
  the table, or another truthy value, such as a member inherited from
  [Object.prototype] (a function, or the prototype itself for
  [__proto__]) or a flag that the module system adds to the module
  object.  Such a value is not a currency entry: it has no property
  [code], [base] or [exponent], and reading one gives [undefined]. *)
Inductive member : Type :=
| Entry (c : DineroCurrency)
| Other.

(** [currencies[key]]: the object's own property, else the inherited
  member, else [undefined]. *)
Definition read_member (currencies : gmap string member) (key : string) : option member :=
match currencies !! key with
| Some v => Some v
| None => if bool_decide (key ∈ Object_prototype) then Some Other else None
end.

Module Currency.

Record t : Type := new { c : member }.

(** The three getters; [None] is [undefined]. *)
Definition code (this : t) : option string :=
  match c this with
  | Entry c => Some (dinero_code c)
  | Other => None
  end.

Definition exponent (this : t) : option nat :=
  match c this with
  | Entry c => Some (dinero_exponent c)
  | Other => None
  end.

Definition base (this : t) : option positive :=
  match c this with
  | Entry c => Some (dinero_base c)
  | Other => None
  end.

(** [this.code === other.code]: two strings with the same characters, or
    [undefined] on both sides. *)
Definition equals (this other : t) : bool :=
  match code this, code other with
  | Some a, Some b => (a =? b)%string
  | None, None => true
  | _, _ => false
  end.

Definition toString (this : t) : option string := code this.

(** [currencies[key]], then the test [!c]: the members are truthy, so
    only [undefined] is falsy. *)
Definition parse (currencies : gmap string member) (code : string) : result t :=
  match read_member currencies code with
  | None => Throw (new_InvalidCurrencyException code)
  | Some c => Ok (new c)
  end.

End Currency.

(** ** Money *)

Module Money.

Record t : Type := mk { amount : number; currency : Currency.t }.

(** The constructor. *)
Definition new (amount : number) (currency : Currency.t) : result t :=
  if Number.gt amount MAX_SAFE_INTEGER || Number.lt amount MIN_SAFE_INTEGER
  then Throw (MoneyException "Unsafe integer amount!")
  else Ok (mk amount currency).

Definition hasSameCurrency (this other : t) : bool :=
  Currency.equals (currency this) (currency other).

Definition compareTo (this other : t) : result number :=
  if negb (hasSameCurrency this other)
  then Throw (MoneyException "Impossible to compare monetary values with different currencies.")
  else Ok (Number.sub (amount this) (amount other)).

Definition isGreaterThan (this other : t) : result bool :=
  r ← compareTo this other; Ok (Number.gt r zero).

Definition isLessThan (this other : t) : result bool :=
  r ← compareTo this other; Ok (Number.lt r zero).

Definition equals (this other : t) : result bool :=
  r ← compareTo this other; Ok (Number.strict_equals r zero).

Definition convertAmountToDecimal (this : t) : number :=
  Number.div (amount this)
    (exponentiate_values (Currency.base (currency this))
                         (Currency.exponent (currency this))).

(** [toFixed(undefined)] is [toFixed(0)], and [undefined] reads
    ["undefined"] inside the template literal. *)
Definition toString (this : t) : result string :=
  let amountInDecimal := convertAmountToDecimal this in
  amountWithDecimalPlaces ←
    toFixed amountInDecimal (default 0%nat (Currency.exponent (currency this)));
  Ok (amountWithDecimalPlaces ++ " " ++
      JsString.to_string (Currency.code (currency this)))%string.

Record MoneyRepresentation : Type := {
  json_amount : number;
  json_currency : option string;
  json_raw : string;
  json_precision : option nat
}.

Definition toJSON (this : t) : result MoneyRepresentation :=
  raw ← toString this;
  Ok {| json_amount := amount this;
        json_currency := Currency.code (currency this);
        json_precision := Currency.exponent (currency this);
        json_raw := raw |}.

(** [const [amountStr, currencyStr] = text.split(' ')]: the first two
    pieces; [split] always yields a first piece, the second is
    [undefined] when the text has no space. *)
Definition parse (currencies : gmap string member) (text : string) : result t :=
  let pieces := JsString.split " " text in
  let amountStr := default EmptyString (head pieces) in
  let currencyStr := pieces !! 1%nat in
  currency ← Currency.parse currencies (JsString.to_string currencyStr);
  let amount :=
    Number.mul (parseFloat amountStr)
      (exponentiate_values (Currency.base currency) (Currency.exponent currency)) in
  if isNaN amount then Throw (new_MoneyParseException text)
  else new (trunc amount) currency.

End Money.

(** ** A sample of the currency table *)

(** Modelled from the spec: five entries of the external table, ISO-4217
  codes with their minor-unit exponent and base. *)
Definition EUR : DineroCurrency := {| dinero_code := "EUR"; dinero_base := 10; dinero_exponent := 2 |}.
Definition USD : DineroCurrency := {| dinero_code := "USD"; dinero_base := 10; dinero_exponent := 2 |}.
Definition BRL : DineroCurrency := {| dinero_code := "BRL"; dinero_base := 10; dinero_exponent := 2 |}.
Definition JPY : DineroCurrency := {| dinero_code := "JPY"; dinero_base := 10; dinero_exponent := 0 |}.
Definition KWD : DineroCurrency := {| dinero_code := "KWD"; dinero_base := 10; dinero_exponent := 3 |}.

Definition sample_currencies : gmap string member :=
<["EUR" := Entry EUR]> (<["USD" := Entry USD]> (<["BRL" := Entry BRL]>
  (<["JPY" := Entry JPY]> (<["KWD" := Entry KWD]> ∅)))).

(** ** Vocabulary of the specification *)

(** An amount lies outside the safe-integer envelope when its value is
  above [2^53 - 1] or below [-(2^53 - 1)]; the infinities do, NaN has no
  value and is on neither side. *)
Definition outside_envelope (x : number) : bool :=
match compare_Z x (2 ^ 53 - 1), compare_Z x (- (2 ^ 53 - 1)) with
| Some Gt, _ => true
| _, Some Lt => true
| _, _ => false
end.

(** [r], below [10^f], written with exactly [f] digits. *)
Fixpoint fraction_digits (f : nat) (r : Z) : list ascii :=
match f with
| O => []
| S f' => fraction_digits f' (r / 10) ++ [digit_char (r mod 10)]
end.

(** The decimal representation of [a / 10^f] with exactly [f] fractional
  digits: a minus sign when [a] is negative, the integral part of
  [|a| / 10^f], and, when [f > 0], a point and the [f] digits of the
  remainder. *)
Definition decimal_string (a : Z) (f : nat) : string :=
string_of_list_ascii
  ((if a <? 0 then ["-"%char] else []) ++
   decimal_digits (Z.abs a / 10 ^ Z.of_nat f) ++
   match f with
   | O => []
   | S _ => "."%char :: fraction_digits f (Z.abs a mod 10 ^ Z.of_nat f)
   end).


(** The scale [base ** exponent] of a table entry is itself a safe
  integer, as it is for every ISO-4217 currency. *)
Definition safe_scale (c : DineroCurrency) : Prop :=
Z.pos (dinero_base c) ^ Z.of_nat (dinero_exponent c) < 2 ^ 53.

(** ** Vocabulary of the proofs *)

Module Rounding.

(** A shift record with nothing shifted out yet. *)
Definition exact_record (m : Z) : shr_record :=
{| shr_m := m; shr_r := false; shr_s := false |}.

(** The last step of rounding: a mantissa that reached [2^53] is
  renormalised. *)
Definition finish (s : bool) (m e : Z) : number :=
if m =? 2 ^ 53 then S754_finite s (Z.to_pos (2 ^ 52)) (e + 1)
else S754_finite s (Z.to_pos m) e.

(** What is left of [binary_round_aux] after its first shift. *)
Definition round_tail (s : bool) (x : shr_record * Z) : number :=
let '(mrs', e') := x in
let '(mrs'', e'') :=
  shr_fexp prec emax (round_nearest_even (shr_m mrs') (loc_of_shr_record mrs')) e' loc_Exact in
match shr_m mrs'' with
| 0 => S754_zero s
| Z.pos m => if e'' <=? emax - prec then S754_finite s m e'' else S754_infinity s
| Z.neg _ => S754_nan
end.

(** The mantissa aligned on its canonical exponent, then shifted. *)
Definition aligned (p : positive) (e : Z) : shr_record * Z :=
let '(mz, ez) := shl_align p e (fexp prec emax (Z.pos (digits2_pos p) + e)) in
shr_fexp prec emax (Z.pos mz) ez loc_Exact.

(** [M * 2^E * b] is within a half of the integer [A] (exactly [A] when
  it is an integer itself). *)
Definition near (M E b A : Z) : Prop :=
if 0 <=? E then M * 2 ^ E * b = A
else 2 * Z.abs (M * b - A * 2 ^ (- E)) < 2 ^ (- E).

(** The digits of [n], padded to more than [f] characters. *)
Definition padded (n : Z) (f : nat) : list ascii :=
let m := decimal_digits n in
if (length m <=? f)%nat then replicate (f + 1 - length m)%nat "0"%char ++ m else m.

End Rounding.

(** The two tokens that [parse] reads. *)
Definition amountStr (text : string) : string :=
default EmptyString (head (JsString.split " " text)).
Definition currencyStr (text : string) : string :=
JsString.to_string (JsString.split " " text !! 1%nat).

(** The integer that a run of digits writes after [value]. *)
Definition digits_value (value : Z) (digits : list ascii) : Z :=
fold_left (fun acc c => 10 * acc + (Z.of_N (N_of_ascii c) - 48)) digits value.

(** The ten digit characters. *)
Definition is_digit (c : ascii) : Prop := exists d, 0 <= d <= 9 /\ c = digit_char d.

(** A character that cannot start a decimal literal, white space aside. *)
Definition starts_no_number (c : ascii) : Prop :=
is_white_space c = false /\ digit_value c = None /\
c <> "-"%char /\ c <> "+"%char /\ c <> "."%char /\ c <> "I"%char.

(** A character that ends a run of digits and starts neither a fraction
    nor an exponent. *)
Definition ends_integer (c : ascii) : Prop :=
digit_value c = None /\ c <> "."%char /\ c <> "e"%char /\ c <> "E"%char.

(** * Properties *)

(** ** Facts on binary64 rounding *)

Module NumberFacts.
Import Rounding.

(** *** Binary digits *)

Lemma digits2_pos_log2 (p : positive) :
  Z.pos (digits2_pos p) = Z.log2 (Z.pos p) + 1.
Proof.
  assert (H : forall q, digits2_pos q = Pos.size q).
  { induction q as [q IH | q IH |]; simpl; now rewrite ?IH. }
  rewrite H. destruct p; simpl; lia.
Qed.

Lemma digits2_pos_bounds (p : positive) :
  2 ^ (Z.pos (digits2_pos p) - 1) <= Z.pos p < 2 ^ Z.pos (digits2_pos p).
Proof.
  rewrite digits2_pos_log2.
  replace (Z.log2 (Z.pos p) + 1 - 1) with (Z.log2 (Z.pos p)) by lia.
  apply Z.log2_spec. lia.
Qed.

Lemma digits2_pos_unique (p : positive) (d : Z) :
  2 ^ (d - 1) <= Z.pos p < 2 ^ d -> Z.pos (digits2_pos p) = d.
Proof.
  intros H. rewrite digits2_pos_log2.
  assert (0 <= d - 1).
  { destruct (Z.le_gt_cases 0 (d - 1)) as [|Hd]; [assumption|].
    destruct (Z.eq_dec d 0) as [->|]; [simpl in H; lia|].
    rewrite (Z.pow_neg_r 2 d) in H by lia. lia. }
  rewrite (Z.log2_unique (Z.pos p) (d - 1)); [lia | lia |].
  replace (Z.succ (d - 1)) with d by lia. exact H.
Qed.

(** *** Shifts *)

Lemma iter_xO (p d : positive) :
  Z.pos (Pos.iter xO p d) = Z.pos p * 2 ^ Z.pos d.
Proof.
  assert (H : forall n : nat, Z.pos (Nat.iter n xO p) = Z.pos p * 2 ^ Z.of_nat n).
  { induction n as [|n IH].
    - simpl Nat.iter. change (2 ^ Z.of_nat 0) with 1. lia.
    - simpl Nat.iter. rewrite Pos2Z.inj_xO, IH, Nat2Z.inj_succ, Z.pow_succ_r by lia. lia. }
  specialize (H (Pos.to_nat d)). rewrite positive_nat_Z in H.
  rewrite Pos2Nat.inj_iter. exact H.
Qed.

Lemma shl_align_value (m : positive) (e e' : Z) :
  e' <= e ->
  Z.pos (fst (shl_align m e e')) = Z.pos m * 2 ^ (e - e') /\
  snd (shl_align m e e') = e'.
Proof.
  intros He. unfold shl_align.
  destruct (e' - e) as [|d|d] eqn:Hd; simpl.
  - replace (e - e') with 0 by lia. split; lia.
  - lia.
  - rewrite iter_xO. replace (e - e') with (Z.pos d) by lia. split; lia.
Qed.

Lemma iter_pos_nat {A : Type} (f : A -> A) (p : positive) (x : A) :
  SpecFloat.iter_pos f p x = Nat.iter (Pos.to_nat p) f x.
Proof.
  assert (Hc : forall n y, Nat.iter n f (f y) = f (Nat.iter n f y)).
  { induction n as [|n IH]; intros y; simpl; [reflexivity | now rewrite IH]. }
  revert x. induction p as [p IH | p IH |]; intros x; simpl SpecFloat.iter_pos.
  - rewrite !IH, Pos2Nat.inj_xI. simpl Nat.iter.
    replace (Pos.to_nat p + (Pos.to_nat p + 0))%nat with (Pos.to_nat p + Pos.to_nat p)%nat by lia.
    rewrite Nat.iter_add, !Hc. reflexivity.
  - rewrite !IH, Pos2Nat.inj_xO. simpl Nat.mul.
    replace (Pos.to_nat p + (Pos.to_nat p + 0))%nat with (Pos.to_nat p + Pos.to_nat p)%nat by lia.
    now rewrite Nat.iter_add.
  - reflexivity.
Qed.

Lemma shr_1_even (m : Z) : 0 <= m -> shr_1 (exact_record (2 * m)) = exact_record m.
Proof. intros Hm. destruct m as [|p|p]; [reflexivity | reflexivity | lia]. Qed.

Lemma iter_shr_1_exact (n : nat) (m : Z) :
  0 <= m ->
  Nat.iter n shr_1 (exact_record (m * 2 ^ Z.of_nat n)) = exact_record m.
Proof.
  intros Hm. revert m Hm. induction n as [|n IH]; intros m Hm.
  - simpl. now rewrite Z.mul_1_r.
  - rewrite Nat.iter_succ_r, Nat2Z.inj_succ, Z.pow_succ_r by lia.
    replace (m * (2 * 2 ^ Z.of_nat n)) with (2 * (m * 2 ^ Z.of_nat n)) by lia.
    rewrite shr_1_even by (apply Z.mul_nonneg_nonneg; [lia | apply Z.pow_nonneg; lia]).
    now apply IH.
Qed.

(** *** Rounding a mantissa that already has 53 or 54 bits *)

Lemma fexp_normal (d : Z) : -1021 <= d -> fexp prec emax d = d - 53.
Proof. intros H. unfold fexp, emin, prec, emax. lia. Qed.

Lemma loc_of_record_of_loc (m : Z) (l : location) :
  loc_of_shr_record (shr_record_of_loc m l) = l.
Proof. destruct l as [|[]]; reflexivity. Qed.

Lemma shr_m_record_of_loc (m : Z) (l : location) :
  shr_m (shr_record_of_loc m l) = m.
Proof. destruct l as [|[]]; reflexivity. Qed.

Lemma Zdigits2_53 (m : Z) : 2 ^ 52 <= m < 2 ^ 53 -> Zdigits2 m = 53.
Proof.
  intros H. destruct m as [|p|p]; try lia.
  simpl. apply digits2_pos_unique. exact H.
Qed.

Lemma Zdigits2_54 (m : Z) : 2 ^ 53 <= m < 2 ^ 54 -> Zdigits2 m = 54.
Proof.
  intros H. destruct m as [|p|p]; try lia.
  simpl. apply digits2_pos_unique. exact H.
Qed.

Lemma round_nearest_even_cases (m : Z) (l : location) :
  round_nearest_even m l = m \/ round_nearest_even m l = m + 1.
Proof. destruct l as [|[]]; simpl; try destruct (Z.even m); auto. Qed.

Lemma round_tail_53 (s : bool) (m e : Z) :
  2 ^ 52 <= m <= 2 ^ 53 -> -1074 <= e <= 970 ->
  (let '(mrs, e') := shr_fexp prec emax m e loc_Exact in
   match shr_m mrs with
   | 0 => S754_zero s
   | Z.pos p => if e' <=? emax - prec then S754_finite s p e' else S754_infinity s
   | Z.neg _ => S754_nan
   end) = finish s m e.
Proof.
  intros Hm He. unfold finish, shr_fexp.
  destruct (Z.eqb_spec m (2 ^ 53)) as [-> | Hne].
  - rewrite Zdigits2_54 by lia. rewrite fexp_normal by lia.
    replace (54 + e - 53 - e) with 1 by lia.
    change (shr (shr_record_of_loc (2 ^ 53) loc_Exact) e 1)
      with (exact_record (Z.pos (Z.to_pos (2 ^ 52))), e + 1).
    cbv beta iota. unfold exact_record, shr_m.
    destruct (Z.leb_spec (e + 1) (emax - prec)) as [_ | H];
      [reflexivity | unfold emax, prec in H; lia].
  - rewrite Zdigits2_53 by lia. rewrite fexp_normal by lia.
    replace (53 + e - 53 - e) with 0 by lia.
    change (shr (shr_record_of_loc m loc_Exact) e 0) with (exact_record m, e).
    cbv beta iota. unfold exact_record, shr_m.
    destruct m as [|p|p]; try lia.
    destruct (Z.leb_spec e (emax - prec)) as [_ | H];
      [reflexivity | unfold emax, prec in H; lia].
Qed.

Lemma round_aux_53 (s : bool) (m e : Z) (l : location) :
  2 ^ 52 <= m < 2 ^ 53 -> -1074 <= e <= 970 ->
  binary_round_aux prec emax s m e l = finish s (round_nearest_even m l) e.
Proof.
  intros Hm He. unfold binary_round_aux.
  unfold shr_fexp at 1. rewrite Zdigits2_53 by lia. rewrite fexp_normal by lia.
  replace (53 + e - 53 - e) with 0 by lia.
  change (shr (shr_record_of_loc m l) e 0) with (shr_record_of_loc m l, e).
  cbv beta iota.
  rewrite shr_m_record_of_loc, loc_of_record_of_loc.
  apply round_tail_53; [|lia].
  destruct (round_nearest_even_cases m l) as [-> | ->]; lia.
Qed.

Lemma shr_1_m (mrs : shr_record) : 0 <= shr_m mrs -> shr_m (shr_1 mrs) = shr_m mrs / 2.
Proof.
  destruct mrs as [m r s]. simpl shr_m. intros Hm.
  destruct m as [|[p|p|]|p]; try lia; simpl shr_m.
  - reflexivity.
  - rewrite Pos2Z.inj_xI. apply Z.div_unique with (r := 1); lia.
  - rewrite Pos2Z.inj_xO. apply Z.div_unique with (r := 0); lia.
  - reflexivity.
Qed.

Lemma round_aux_54 (s : bool) (m e : Z) (l : location) :
  2 ^ 53 <= m < 2 ^ 54 -> -1075 <= e <= 969 ->
  binary_round_aux prec emax s m e l =
    finish s (round_nearest_even (m / 2)
                (loc_of_shr_record (shr_1 (shr_record_of_loc m l)))) (e + 1).
Proof.
  intros Hm He.
  assert (Hmrs : shr_m (shr_1 (shr_record_of_loc m l)) = m / 2).
  { rewrite shr_1_m; rewrite shr_m_record_of_loc; [reflexivity | lia]. }
  unfold binary_round_aux.
  unfold shr_fexp at 1. rewrite Zdigits2_54 by lia. rewrite fexp_normal by lia.
  replace (54 + e - 53 - e) with 1 by lia.
  change (shr (shr_record_of_loc m l) e 1)
    with (shr_1 (shr_record_of_loc m l), e + 1).
  cbv beta iota. rewrite Hmrs.
  assert (Hh : 2 ^ 52 <= m / 2 < 2 ^ 53).
  { split; [apply Z.div_le_lower_bound | apply Z.div_lt_upper_bound]; lia. }
  apply round_tail_53; [|lia].
  destruct (round_nearest_even_cases (m / 2)
              (loc_of_shr_record (shr_1 (shr_record_of_loc m l)))) as [-> | ->]; lia.
Qed.

(** *** Rounding an integer mantissa: [binary_round] and [of_Z] *)

Lemma shr_nat (mrs : shr_record) (e n : Z) :
  0 <= n -> shr mrs e n = (Nat.iter (Z.to_nat n) shr_1 mrs, e + n).
Proof.
  intros Hn. destruct n as [|p|p]; try lia; unfold shr.
  - simpl. f_equal. lia.
  - rewrite iter_pos_nat. reflexivity.
Qed.

Lemma shr_exact (m k n e : Z) :
  0 <= m -> 0 <= k -> 0 <= n ->
  shr (exact_record (m * 2 ^ k)) e (k + n) = shr (exact_record m) (e + k) n.
Proof.
  intros Hm Hk Hn. rewrite !shr_nat by lia.
  replace (Z.to_nat (k + n)) with (Z.to_nat n + Z.to_nat k)%nat by lia.
  rewrite Nat.iter_add.
  pose proof (iter_shr_1_exact (Z.to_nat k) m Hm) as H.
  rewrite Z2Nat.id in H by lia. rewrite H.
  f_equal. lia.
Qed.

Lemma binary_round_tail (s : bool) (p : positive) (e : Z) :
  binary_round prec emax s p e = round_tail s (aligned p e).
Proof.
  unfold binary_round, aligned, binary_round_aux, round_tail.
  destruct (shl_align p e _) as [mz ez]. reflexivity.
Qed.

Lemma digits2_pos_shift (p q : positive) (k : Z) :
  0 <= k -> Z.pos q = Z.pos p * 2 ^ k ->
  Z.pos (digits2_pos q) = Z.pos (digits2_pos p) + k.
Proof.
  intros Hk Hq. apply digits2_pos_unique. rewrite Hq.
  pose proof (digits2_pos_bounds p) as [Hl Hu].
  assert (H2 : 0 < 2 ^ k) by (apply Z.pow_pos_nonneg; lia).
  replace (Z.pos (digits2_pos p) + k - 1) with (Z.pos (digits2_pos p) - 1 + k) by lia.
  rewrite !Z.pow_add_r by lia. split; nia.
Qed.

Lemma aligned_spec (p : positive) (e : Z) :
  let E := fexp prec emax (Z.pos (digits2_pos p) + e) in
  aligned p e =
    if E <=? e then (exact_record (Z.pos p * 2 ^ (e - E)), E)
    else shr (exact_record (Z.pos p)) e (E - e).
Proof.
  intros E. unfold aligned. fold E.
  destruct (Z.leb_spec E e) as [Hle | Hgt].
  - destruct (shl_align_value p e E Hle) as [Hm He].
    destruct (shl_align p e E) as [mz ez]. simpl in Hm, He. subst ez.
    unfold shr_fexp. simpl Zdigits2.
    rewrite (digits2_pos_shift p mz (e - E)) by (lia || assumption).
    replace (Z.pos (digits2_pos p) + (e - E) + E) with (Z.pos (digits2_pos p) + e) by lia.
    fold E. rewrite Z.sub_diag, Hm. reflexivity.
  - unfold shl_align. destruct (E - e) as [|d|d] eqn:Hd; try lia.
    unfold shr_fexp. simpl Zdigits2. fold E. rewrite Hd. reflexivity.
Qed.

Lemma binary_round_shift (s : bool) (p q : positive) (k : Z) :
  0 <= k -> Z.pos q = Z.pos p * 2 ^ k ->
  binary_round prec emax s q (- k) = binary_round prec emax s p 0.
Proof.
  intros Hk Hq. rewrite !binary_round_tail. f_equal.
  rewrite !aligned_spec. cbv zeta.
  rewrite (digits2_pos_shift p q k Hk Hq).
  replace (Z.pos (digits2_pos p) + k + - k) with (Z.pos (digits2_pos p) + 0) by lia.
  set (E := fexp prec emax (Z.pos (digits2_pos p) + 0)).
  rewrite Hq.
  destruct (Z.leb_spec E (- k)) as [H1 | H1], (Z.leb_spec E 0) as [H2 | H2]; try lia.
  - f_equal. f_equal. rewrite <- Z.mul_assoc, <- Z.pow_add_r by lia. f_equal. f_equal. lia.
  - replace (Z.pos p * 2 ^ k) with (Z.pos p * 2 ^ (0 - E) * 2 ^ (k + E))
      by (rewrite <- Z.mul_assoc, <- Z.pow_add_r by lia; f_equal; f_equal; lia).
    replace (E - - k) with (k + E + 0) by lia.
    rewrite shr_exact by (try apply Z.mul_nonneg_nonneg; try apply Z.pow_nonneg; lia).
    unfold shr. f_equal. lia.
  - replace (E - - k) with (k + E) by lia.
    rewrite shr_exact by lia. f_equal; lia.
Qed.

Lemma normalize_shift (z k : Z) :
  0 <= k ->
  binary_normalize prec emax (z * 2 ^ k) (- k) false = binary_normalize prec emax z 0 false.
Proof.
  intros Hk. assert (H2 : 0 < 2 ^ k) by (apply Z.pow_pos_nonneg; lia).
  destruct z as [|p|p].
  - reflexivity.
  - destruct (Z.pos p * 2 ^ k) as [|q|q] eqn:Hq; try lia.
    simpl. now apply binary_round_shift.
  - destruct (Z.neg p * 2 ^ k) as [|q|q] eqn:Hq; try lia.
    simpl. apply binary_round_shift; [assumption | lia].
Qed.

(** The canonical form of an integer below [2^53]. *)
Lemma binary_round_small (s : bool) (p : positive) :
  Z.pos p < 2 ^ 53 ->
  let d := Z.pos (digits2_pos p) in
  binary_round prec emax s p 0 =
    S754_finite s (Z.to_pos (Z.pos p * 2 ^ (53 - d))) (d - 53).
Proof.
  intros Hp d. pose proof (digits2_pos_bounds p) as [Hl Hu]. fold d in Hl, Hu.
  assert (Hd : 1 <= d <= 53).
  { split; [subst d; lia|].
    destruct (Z.le_gt_cases d 53) as [|Hgt]; [assumption|].
    assert (2 ^ 53 <= 2 ^ (d - 1)) by (apply Z.pow_le_mono_r; lia). lia. }
  rewrite binary_round_tail, aligned_spec. cbv zeta. fold d.
  rewrite fexp_normal by lia.
  destruct (Z.leb_spec (d + 0 - 53) 0) as [_ | H]; [|lia].
  replace (0 - (d + 0 - 53)) with (53 - d) by lia.
  replace (d + 0 - 53) with (d - 53) by lia.
  assert (Hm : 2 ^ 52 <= Z.pos p * 2 ^ (53 - d) < 2 ^ 53).
  { assert (H2 : 0 < 2 ^ (53 - d)) by (apply Z.pow_pos_nonneg; lia).
    replace (2 ^ 52) with (2 ^ (d - 1) * 2 ^ (53 - d))
      by (rewrite <- Z.pow_add_r by lia; f_equal; lia).
    replace (2 ^ 53) with (2 ^ d * 2 ^ (53 - d))
      by (rewrite <- Z.pow_add_r by lia; f_equal; lia).
    split; nia. }
  unfold round_tail, exact_record, shr_m, loc_of_shr_record, round_nearest_even.
  rewrite round_tail_53 by lia. unfold finish.
  destruct (Z.eqb_spec (Z.pos p * 2 ^ (53 - d)) (2 ^ 53)); [lia | reflexivity].
Qed.

Lemma cond_Zopp_abs (z : Z) : cond_Zopp (z <? 0) (Z.abs z) = z.
Proof. destruct (Z.ltb_spec z 0); simpl; lia. Qed.

Lemma of_Z_canonical (z : Z) :
  0 < Z.abs z < 2 ^ 53 ->
  exists m e, of_Z z = S754_finite (z <? 0) m e /\
              -52 <= e <= 0 /\
              Z.pos m = Z.abs z * 2 ^ (- e) /\
              2 ^ 52 <= Z.pos m < 2 ^ 53.
Proof.
  intros Hz.
  assert (H : forall s p, Z.pos p < 2 ^ 53 ->
            exists m e, binary_round prec emax s p 0 = S754_finite s m e /\
              -52 <= e <= 0 /\ Z.pos m = Z.pos p * 2 ^ (- e) /\
              2 ^ 52 <= Z.pos m < 2 ^ 53).
  { intros s p Hp. rewrite binary_round_small by assumption.
    pose proof (digits2_pos_bounds p) as [Hl Hu].
    set (d := Z.pos (digits2_pos p)) in *.
    assert (Hd : 1 <= d <= 53).
    { split; [subst d; lia|].
      destruct (Z.le_gt_cases d 53) as [|Hgt]; [assumption|].
      assert (2 ^ 53 <= 2 ^ (d - 1)) by (apply Z.pow_le_mono_r; lia). lia. }
    assert (Hm : 2 ^ 52 <= Z.pos p * 2 ^ (53 - d) < 2 ^ 53).
    { assert (H2 : 0 < 2 ^ (53 - d)) by (apply Z.pow_pos_nonneg; lia).
      replace (2 ^ 52) with (2 ^ (d - 1) * 2 ^ (53 - d))
        by (rewrite <- Z.pow_add_r by lia; f_equal; lia).
      replace (2 ^ 53) with (2 ^ d * 2 ^ (53 - d))
        by (rewrite <- Z.pow_add_r by lia; f_equal; lia).
      split; nia. }
    eexists _, _. split; [reflexivity|].
    replace (- (d - 53)) with (53 - d) by lia.
    rewrite Z2Pos.id by lia. repeat split; lia. }
  unfold of_Z. destruct z as [|p|p]; simpl in Hz; try lia; simpl binary_normalize.
  - apply (H false p). lia.
  - apply (H true p). lia.
Qed.

Lemma of_Z_finite (z : Z) :
  0 < Z.abs z < 2 ^ 54 -> exists m e, of_Z z = S754_finite (z <? 0) m e.
Proof.
  intros Hz. destruct (Z.lt_ge_cases (Z.abs z) (2 ^ 53)) as [Hlt | Hge].
  - destruct (of_Z_canonical z) as (m & e & H & _); [lia | eauto].
  - assert (H : forall s p, 2 ^ 53 <= Z.pos p < 2 ^ 54 ->
              exists m e, binary_round prec emax s p 0 = S754_finite s m e).
    { intros s p Hp. unfold binary_round.
      rewrite (digits2_pos_unique p 54) by exact Hp.
      change (shl_align p 0 (fexp prec emax (54 + 0))) with (p, 0).
      cbv beta iota. rewrite round_aux_54 by lia. unfold finish.
      destruct (_ =? _); eauto. }
    unfold of_Z. destruct z as [|p|p]; simpl in Hz, Hge; try lia; simpl binary_normalize.
    + apply (H false p). lia.
    + apply (H true p). lia.
Qed.

Lemma to_Z_of_Z (z : Z) : Z.abs z <= 2 ^ 53 -> to_Z (of_Z z) = Some z.
Proof.
  intros Hz.
  destruct (Z.eq_dec z 0) as [-> | Hnz]; [reflexivity|].
  destruct (Z.eq_dec (Z.abs z) (2 ^ 53)) as [Habs | Hne].
  - assert (Hc : z = 2 ^ 53 \/ z = - 2 ^ 53) by lia.
    destruct Hc as [-> | ->]; vm_compute; reflexivity.
  - destruct (of_Z_canonical z) as (m & e & -> & He & Hm & _); [lia|].
    unfold to_Z. rewrite Hm.
    destruct (Z.leb_spec 0 e) as [H0 | H0].
    + replace e with 0 by lia. simpl (2 ^ (- 0)). simpl (2 ^ 0).
      rewrite !Z.mul_1_r. now rewrite cond_Zopp_abs.
    + assert (H2 : 0 < 2 ^ (- e)) by (apply Z.pow_pos_nonneg; lia).
      rewrite Z.mod_mul by lia. simpl (0 =? 0).
      rewrite Z.div_mul by lia. now rewrite cond_Zopp_abs.
Qed.

Lemma is_number_of_Z (z : Z) : Z.abs z < 2 ^ 53 -> is_number (of_Z z).
Proof.
  intros Hz. destruct (Z.eq_dec z 0) as [-> | Hnz]; [reflexivity|].
  destruct (of_Z_canonical z) as (m & e & -> & He & _ & Hm); [lia|].
  unfold is_number, valid_binary, bounded, canonical_mantissa.
  rewrite (digits2_pos_unique m 53) by exact Hm.
  rewrite fexp_normal by lia. apply andb_true_iff. split.
  - apply Z.eqb_eq. lia.
  - apply Z.leb_le. unfold emax, prec. lia.
Qed.

Lemma sub_of_Z (a b : Z) :
  Z.abs a < 2 ^ 53 -> Z.abs b < 2 ^ 53 ->
  sub (of_Z a) (of_Z b) = of_Z (a - b).
Proof.
  intros Ha Hb.
  destruct (Z.eq_dec b 0) as [-> | Hbz].
  { rewrite Z.sub_0_r. destruct (Z.eq_dec a 0) as [-> | Haz]; [reflexivity|].
    destruct (of_Z_canonical a) as (ma & ea & -> & _); [lia | reflexivity]. }
  destruct (of_Z_canonical b) as (mb & eb & Eb & Heb & Hmb & _); [lia|].
  destruct (Z.eq_dec a 0) as [-> | Haz].
  { destruct (of_Z_canonical (0 - b)) as (mb' & eb' & Eb' & Heb' & Hmb' & Hr'); [lia|].
    rewrite Eb, Eb'. change (of_Z 0) with (S754_zero false). simpl.
    assert (Hs : (0 - b <? 0) = negb (b <? 0)).
    { destruct (Z.ltb_spec (0 - b) 0), (Z.ltb_spec b 0); simpl; lia || reflexivity. }
    rewrite Hs.
    pose proof (f_equal to_Z Eb) as T1. pose proof (f_equal to_Z Eb') as T2.
    rewrite to_Z_of_Z in T1, T2 by lia.
    assert (eb = eb').
    { destruct (of_Z_canonical b) as (m1 & e1 & E1 & _ & H1 & R1); [lia|].
      rewrite Eb in E1. injection E1 as <- <-.
      replace (Z.abs (0 - b)) with (Z.abs b) in Hmb' by lia.
      destruct (Z.lt_trichotomy eb eb') as [Hlt | [Heq | Hgt]]; [|assumption|].
      - assert (Z.pos mb = Z.pos mb' * 2 ^ (eb' - eb)).
        { rewrite Hmb, Hmb', <- Z.mul_assoc, <- Z.pow_add_r by lia. do 2 f_equal. lia. }
        assert (2 <= 2 ^ (eb' - eb)).
        { change 2 with (2 ^ 1) at 1. apply Z.pow_le_mono_r; lia. }
        nia.
      - assert (Z.pos mb' = Z.pos mb * 2 ^ (eb - eb')).
        { rewrite Hmb, Hmb', <- Z.mul_assoc, <- Z.pow_add_r by lia. do 2 f_equal. lia. }
        assert (2 <= 2 ^ (eb - eb')).
        { change 2 with (2 ^ 1) at 1. apply Z.pow_le_mono_r; lia. }
        nia. }
    subst eb'. replace (Z.abs (0 - b)) with (Z.abs b) in Hmb' by lia.
    f_equal. apply Pos2Z.inj. congruence. }
  destruct (of_Z_canonical a) as (ma & ea & Ea & Hea & Hma & _); [lia|].
  rewrite Ea, Eb. unfold sub, SFsub.
  set (ez := Z.min ea eb).
  destruct (shl_align_value ma ea ez) as [Va _]; [subst ez; lia|].
  destruct (shl_align_value mb eb ez) as [Vb _]; [subst ez; lia|].
  rewrite Va, Vb, Hma, Hmb.
  rewrite <- !Z.mul_assoc, <- !Z.pow_add_r by (subst ez; lia).
  replace (- ea + (ea - ez)) with (- ez) by lia.
  replace (- eb + (eb - ez)) with (- ez) by lia.
  assert (Hc : forall s v w, cond_Zopp s (v * w) = cond_Zopp s v * w).
  { intros [] v w; simpl; lia. }
  rewrite !Hc, !cond_Zopp_abs, <- Z.mul_sub_distr_r.
  rewrite <- (Z.opp_involutive ez) at 2.
  apply normalize_shift. subst ez. lia.
Qed.

(** *** The envelope tests of the constructor *)

Lemma valid_finite (s : bool) (m : positive) (e : Z) :
  is_number (S754_finite s m e) ->
  Z.pos m < 2 ^ 53 /\ (-1074 < e -> 2 ^ 52 <= Z.pos m) /\ -1074 <= e <= 971.
Proof.
  unfold is_number, valid_binary, bounded, canonical_mantissa.
  intros H. apply andb_true_iff in H as [Hc He].
  apply Z.eqb_eq in Hc. apply Z.leb_le in He.
  unfold fexp, emin, emax, prec in *.
  pose proof (digits2_pos_bounds m) as [Hl Hu].
  set (d := Z.pos (digits2_pos m)) in *.
  assert (Hd : d <= 53) by lia.
  repeat split; try lia.
  - apply Z.lt_le_trans with (2 ^ d); [assumption | apply Z.pow_le_mono_r; lia].
  - intros He'. replace d with 53 in Hl by lia. exact Hl.
Qed.

Lemma MAX_SAFE_INTEGER_eq : MAX_SAFE_INTEGER = S754_finite false 9007199254740991 0.
Proof. vm_compute. reflexivity. Qed.

Lemma MIN_SAFE_INTEGER_eq : MIN_SAFE_INTEGER = S754_finite true 9007199254740991 0.
Proof. vm_compute. reflexivity. Qed.

Ltac compare_is c :=
  match goal with
  | |- context [Some (?a ?= ?b)] =>
      let C := fresh "C" in
      assert (C : (a ?= b) = c);
      [ first [apply Z.compare_lt_iff | apply Z.compare_gt_iff | apply Z.compare_eq_iff]
      | rewrite C; split; first [discriminate | reflexivity] ]
  end.

Lemma gt_MAX_SAFE_INTEGER (x : number) :
  is_number x ->
  Number.gt x MAX_SAFE_INTEGER = true <-> compare_Z x (2 ^ 53 - 1) = Some Gt.
Proof.
  intros Hx. rewrite MAX_SAFE_INTEGER_eq. unfold Number.gt, SFltb.
  destruct x as [s | s | | s m e]; simpl SFcompare; unfold compare_Z.
  - simpl. split; discriminate.
  - destruct s; simpl; split; discriminate || reflexivity.
  - split; discriminate.
  - destruct (valid_finite s m e Hx) as (Hm & Hn & He).
    destruct s.
    + change (cond_Zopp true (Z.pos m)) with (- Z.pos m).
      destruct (Z.leb_spec 0 e) as [Hle | Hle]; cbv iota; compare_is Lt.
      * assert (0 < 2 ^ e) by (apply Z.pow_pos_nonneg; lia). nia.
      * assert (0 < 2 ^ (- e)) by (apply Z.pow_pos_nonneg; lia). nia.
    + change (cond_Zopp false (Z.pos m)) with (Z.pos m).
      destruct e as [|pe|pe].
      * change (0 <=? 0) with true. cbv iota.
        rewrite Z.pow_0_r, Z.mul_1_r, Pos.compare_cont_spec.
        destruct (Pos.compare_spec 9007199254740991 m) as [Hc | Hc | Hc];
          unfold Pos.switch_Eq; cbv iota;
          [compare_is Eq; subst m; reflexivity
          | compare_is Gt; apply Pos2Z.pos_lt_pos in Hc; exact Hc
          | compare_is Lt; apply Pos2Z.pos_lt_pos in Hc; exact Hc].
      * change (0 <=? Z.pos pe) with true. cbv iota. compare_is Gt.
        assert (2 <= 2 ^ Z.pos pe)
          by (change 2 with (2 ^ 1) at 1; apply Z.pow_le_mono_r; lia).
        specialize (Hn ltac:(lia)). nia.
      * change (0 <=? Z.neg pe) with false. cbv iota. compare_is Lt.
        assert (2 <= 2 ^ (- Z.neg pe))
          by (change 2 with (2 ^ 1) at 1; apply Z.pow_le_mono_r; lia).
        nia.
Qed.

Lemma lt_MIN_SAFE_INTEGER (x : number) :
  is_number x ->
  Number.lt x MIN_SAFE_INTEGER = true <-> compare_Z x (- (2 ^ 53 - 1)) = Some Lt.
Proof.
  intros Hx. rewrite MIN_SAFE_INTEGER_eq. unfold Number.lt, SFltb.
  destruct x as [s | s | | s m e]; cbv beta iota delta [SFcompare]; unfold compare_Z.
  - simpl. split; discriminate.
  - destruct s; simpl; split; discriminate || reflexivity.
  - split; discriminate.
  - destruct (valid_finite s m e Hx) as (Hm & Hn & He).
    destruct s.
    + change (cond_Zopp true (Z.pos m)) with (- Z.pos m).
      destruct e as [|pe|pe].
      * change (0 <=? 0) with true. change (0 ?= 0) with Eq. cbv iota.
        rewrite Z.pow_0_r, Z.mul_1_r, Pos.compare_cont_spec.
        destruct (Pos.compare_spec m 9007199254740991) as [Hc | Hc | Hc];
          unfold Pos.switch_Eq, CompOpp; cbv iota;
          [compare_is Eq; subst m; reflexivity
          | compare_is Gt; apply Pos2Z.pos_lt_pos in Hc; apply Z.opp_lt_mono in Hc; exact Hc
          | compare_is Lt; apply Pos2Z.pos_lt_pos in Hc; apply Z.opp_lt_mono in Hc; exact Hc].
      * change (0 <=? Z.pos pe) with true. change (Z.pos pe ?= 0) with Gt.
        cbv iota. compare_is Lt.
        assert (2 <= 2 ^ Z.pos pe)
          by (change 2 with (2 ^ 1) at 1; apply Z.pow_le_mono_r; lia).
        specialize (Hn ltac:(lia)). nia.
      * change (0 <=? Z.neg pe) with false. change (Z.neg pe ?= 0) with Lt.
        cbv iota. compare_is Gt.
        assert (2 <= 2 ^ (- Z.neg pe))
          by (change 2 with (2 ^ 1) at 1; apply Z.pow_le_mono_r; lia).
        nia.
    + change (cond_Zopp false (Z.pos m)) with (Z.pos m).
      destruct (Z.leb_spec 0 e) as [Hle | Hle]; cbv iota; compare_is Gt.
      * assert (0 < 2 ^ e) by (apply Z.pow_pos_nonneg; lia). nia.
      * assert (0 < 2 ^ (- e)) by (apply Z.pow_pos_nonneg; lia). nia.
Qed.

Lemma cond_Zopp_mul (s : bool) (v w : Z) : cond_Zopp s (v * w) = cond_Zopp s v * w.
Proof. destruct s; simpl; lia. Qed.

Lemma compare_Z_of_Z (a b : Z) :
  Z.abs a < 2 ^ 53 -> compare_Z (of_Z a) b = Some (a ?= b).
Proof.
  intros Ha. destruct (Z.eq_dec a 0) as [-> | Hnz]; [reflexivity|].
  destruct (of_Z_canonical a) as (m & e & -> & He & Hm & _); [lia|].
  unfold compare_Z. rewrite Hm, cond_Zopp_mul, cond_Zopp_abs.
  assert (H2 : 0 < 2 ^ (- e)) by (apply Z.pow_pos_nonneg; lia).
  destruct (Z.leb_spec 0 e) as [H0 | H0].
  - replace e with 0 by lia. change (2 ^ (- 0)) with 1. change (2 ^ 0) with 1.
    now rewrite !Z.mul_1_r.
  - f_equal. symmetry. apply Zmult_compare_compat_r. lia.
Qed.

Lemma sign_of_Z (z : Z) :
  Z.abs z < 2 ^ 54 ->
  Number.gt (of_Z z) zero = (0 <? z) /\
  Number.lt (of_Z z) zero = (z <? 0) /\
  strict_equals (of_Z z) zero = (z =? 0).
Proof.
  intros Hz. destruct (Z.eq_dec z 0) as [-> | Hnz]; [repeat split|].
  destruct (of_Z_finite z) as (m & e & ->); [lia|].
  change zero with (S754_zero false).
  unfold Number.gt, Number.lt, strict_equals, SFltb, SFeqb, SFcompare.
  destruct (Z.ltb_spec z 0), (Z.ltb_spec 0 z), (Z.eqb_spec z 0); try lia; repeat split.
Qed.

(** Rounding never produces NaN. *)
Lemma iter_shr_1_nonneg (n : nat) (mrs : shr_record) :
  0 <= shr_m mrs -> 0 <= shr_m (Nat.iter n shr_1 mrs).
Proof.
  intros H. induction n as [|n IH]; simpl; [assumption|].
  rewrite shr_1_m by assumption. apply Z.div_pos; lia.
Qed.

Lemma shr_nonneg (mrs : shr_record) (e n : Z) :
  0 <= shr_m mrs -> 0 <= shr_m (fst (shr mrs e n)).
Proof.
  intros H. destruct n as [|p|p]; simpl; try assumption.
  rewrite iter_pos_nat. now apply iter_shr_1_nonneg.
Qed.

Lemma binary_round_aux_not_nan (s : bool) (m e : Z) (l : location) :
  0 <= m -> isNaN (binary_round_aux prec emax s m e l) = false.
Proof.
  intros Hm. unfold binary_round_aux, shr_fexp.
  pose proof (shr_nonneg (shr_record_of_loc m l) e
                (fexp prec emax (Zdigits2 m + e) - e)) as H1.
  rewrite shr_m_record_of_loc in H1. specialize (H1 Hm).
  destruct (shr (shr_record_of_loc m l) e _) as [mrs' e']. simpl in H1.
  set (m' := round_nearest_even (shr_m mrs') (loc_of_shr_record mrs')).
  assert (Hm' : 0 <= m').
  { subst m'. destruct (round_nearest_even_cases (shr_m mrs') (loc_of_shr_record mrs'))
      as [-> | ->]; lia. }
  pose proof (shr_nonneg (shr_record_of_loc m' loc_Exact) e'
                (fexp prec emax (Zdigits2 m' + e') - e')) as H2.
  rewrite shr_m_record_of_loc in H2. specialize (H2 Hm').
  destruct (shr (shr_record_of_loc m' loc_Exact) e' _) as [mrs'' e'']. simpl in H2.
  destruct (shr_m mrs'') as [|p|p]; [reflexivity | | lia].
  destruct (e'' <=? emax - prec); reflexivity.
Qed.

Lemma binary_normalize_not_nan (m e : Z) (s : bool) :
  isNaN (binary_normalize prec emax m e s) = false.
Proof.
  destruct m as [|p|p]; simpl; [reflexivity | |];
    unfold binary_round; destruct (shl_align p e _) as [mz ez];
    apply binary_round_aux_not_nan; lia.
Qed.

Lemma mul_finite_isNaN (x : number) (s : bool) (m : positive) (e : Z) :
  isNaN (mul x (S754_finite s m e)) = isNaN x.
Proof.
  destruct x as [sx | sx | | sx mx ex]; try reflexivity.
  unfold mul, SFmul. apply binary_round_aux_not_nan. lia.
Qed.


Lemma exponentiate_finite (base : positive) (exponent : nat) :
  Z.pos base ^ Z.of_nat exponent < 2 ^ 53 ->
  exists m e, exponentiate base exponent = S754_finite false m e.
Proof.
  intros H. unfold exponentiate.
  assert (Hp : 0 < Z.pos base ^ Z.of_nat exponent) by (apply Z.pow_pos_nonneg; lia).
  destruct (of_Z_canonical (Z.pos base ^ Z.of_nat exponent)) as (m & e & E & _); [lia|].
  rewrite E. destruct (Z.ltb_spec (Z.pos base ^ Z.of_nat exponent) 0); [lia | eauto].
Qed.

End NumberFacts.

(** ** Facts on decimal digits *)

Module DigitFacts.
Import Rounding.

Lemma digits_fuel_acc (fuel : nat) (n : Z) (acc : list ascii) :
  digits_fuel fuel n acc = digits_fuel fuel n [] ++ acc.
Proof.
  revert n acc. induction fuel as [|fuel IH]; intros n acc; simpl; [reflexivity|].
  destruct (n / 10 =? 0); [reflexivity|].
  rewrite (IH _ (_ :: acc)), (IH _ [_]), <- app_assoc. reflexivity.
Qed.

Lemma digits_fuel_enough (f1 f2 : nat) (n : Z) (acc : list ascii) :
  (0 < f1)%nat -> (0 < f2)%nat ->
  0 <= n < 10 ^ Z.of_nat f1 -> n < 10 ^ Z.of_nat f2 ->
  digits_fuel f1 n acc = digits_fuel f2 n acc.
Proof.
  revert f2 n acc. induction f1 as [|f1 IH]; intros f2 n acc P1 P2 H1 H2; [lia|].
  destruct f2 as [|f2]; [lia|]. simpl.
  destruct (Z.eqb_spec (n / 10) 0) as [|Hq]; [reflexivity|].
  rewrite Nat2Z.inj_succ, Z.pow_succ_r in H1, H2 by lia.
  assert (Hn : 10 <= n).
  { destruct (Z.lt_ge_cases n 10); [|assumption].
    rewrite Z.div_small in Hq by lia. contradiction. }
  assert (forall k : nat, n < 10 * 10 ^ Z.of_nat k -> (0 < k)%nat).
  { intros [|k] Hk; [simpl in Hk|]; lia. }
  apply IH; [apply H; lia | apply H; lia | | ].
  - split; [apply Z.div_pos; lia | apply Z.div_lt_upper_bound; lia].
  - apply Z.div_lt_upper_bound; lia.
Qed.

Lemma lt_pow10_log2 (n : Z) : 0 <= n -> n < 10 ^ Z.of_nat (S (Z.to_nat (Z.log2 n))).
Proof.
  intros Hn. destruct (Z.eq_dec n 0) as [-> | Hnz]; [reflexivity|].
  pose proof (Z.log2_nonneg n) as Hl.
  rewrite Nat2Z.inj_succ, Z2Nat.id by assumption.
  apply Z.lt_le_trans with (2 ^ Z.succ (Z.log2 n)).
  - apply Z.log2_spec. lia.
  - apply Z.pow_le_mono_l. lia.
Qed.

Lemma decimal_digits_small (n : Z) :
  0 <= n < 10 -> decimal_digits n = [digit_char n].
Proof.
  intros Hn. unfold decimal_digits. simpl.
  rewrite Z.div_small, Z.mod_small by lia. reflexivity.
Qed.

Lemma decimal_digits_step (n : Z) :
  10 <= n -> decimal_digits n = decimal_digits (n / 10) ++ [digit_char (n mod 10)].
Proof.
  intros Hn. unfold decimal_digits at 1. simpl.
  assert (Hq : 1 <= n / 10) by (apply Z.div_le_lower_bound; lia).
  destruct (Z.eqb_spec (n / 10) 0) as [|_]; [lia|].
  rewrite digits_fuel_acc. f_equal.
  unfold decimal_digits.
  assert (H3 : 3 <= Z.log2 n) by (apply (Z.log2_le_mono 8); lia).
  apply digits_fuel_enough; [lia | lia | |].
  - split; [lia|].
    pose proof (Z.log2_nonneg n) as Hl.
    rewrite Z2Nat.id by assumption.
    apply Z.div_lt_upper_bound; [lia|].
    apply Z.lt_le_trans with (2 ^ Z.succ (Z.log2 n)); [apply Z.log2_spec; lia|].
    rewrite Z.pow_succ_r by assumption.
    assert (2 ^ Z.log2 n <= 10 ^ Z.log2 n) by (apply Z.pow_le_mono_l; lia).
    assert (0 < 2 ^ Z.log2 n) by (apply Z.pow_pos_nonneg; lia).
    lia.
  - apply lt_pow10_log2. lia.
Qed.

Lemma decimal_digits_length (n : Z) : 0 <= n -> (1 <= length (decimal_digits n))%nat.
Proof.
  intros Hn. destruct (Z.lt_ge_cases n 10).
  - rewrite decimal_digits_small by lia. simpl. lia.
  - rewrite decimal_digits_step by lia. rewrite length_app. simpl. lia.
Qed.

Lemma fraction_digits_length (f : nat) (r : Z) : length (fraction_digits f r) = f.
Proof.
  revert r. induction f as [|f IH]; intros r; simpl; [reflexivity|].
  rewrite length_app, IH. simpl. lia.
Qed.

Lemma fraction_digits_zero (f : nat) :
  fraction_digits f 0 = replicate f "0"%char.
Proof.
  induction f as [|f IH]; [reflexivity|].
  simpl fraction_digits. change (0 / 10) with 0. rewrite IH.
  change (digit_char (0 mod 10)) with "0"%char.
  symmetry. apply replicate_S_end.
Qed.

Lemma padded_split (f : nat) (n : Z) :
  0 <= n ->
  padded n f = decimal_digits (n / 10 ^ Z.of_nat f) ++ fraction_digits f (n mod 10 ^ Z.of_nat f).
Proof.
  revert n. induction f as [|f IH]; intros n Hn.
  - unfold padded. pose proof (decimal_digits_length n Hn).
    destruct (Nat.leb_spec (length (decimal_digits n)) 0); [lia|].
    simpl. rewrite Z.div_1_r, app_nil_r. reflexivity.
  - rewrite Nat2Z.inj_succ, Z.pow_succ_r by lia.
    assert (Hp : 0 < 10 ^ Z.of_nat f) by (apply Z.pow_pos_nonneg; lia).
    simpl fraction_digits.
    replace (n mod (10 * 10 ^ Z.of_nat f) / 10) with ((n / 10) mod 10 ^ Z.of_nat f).
    2:{ rewrite Z.rem_mul_r by lia.
        rewrite (Z.mul_comm 10), Z.div_add by lia.
        rewrite (Z.div_small (n mod 10)) by (apply Z.mod_pos_bound; lia). lia. }
    replace ((n mod (10 * 10 ^ Z.of_nat f)) mod 10) with (n mod 10).
    2:{ rewrite Z.rem_mul_r by lia.
        rewrite (Z.mul_comm 10), Z.mod_add by lia.
        now rewrite Z.mod_mod by lia. }
    replace (n / (10 * 10 ^ Z.of_nat f)) with (n / 10 / 10 ^ Z.of_nat f)
      by (rewrite Z.div_div by lia; reflexivity).
    rewrite app_assoc, <- IH by (apply Z.div_pos; lia).
    unfold padded. destruct (Z.lt_ge_cases n 10) as [Hlt | Hge].
    + rewrite (decimal_digits_small n) by lia.
      rewrite Z.div_small by lia. rewrite (decimal_digits_small 0) by lia.
      rewrite Z.mod_small by lia. simpl length.
      destruct (Nat.leb_spec 1 (S f)); [|lia].
      destruct (Nat.leb_spec 1 f).
      * replace (S f + 1 - 1)%nat with (S (f + 1 - 1)) by lia.
        rewrite replicate_S_end, <- !app_assoc. reflexivity.
      * replace f with 0%nat by lia. reflexivity.
    + rewrite (decimal_digits_step n) by lia. rewrite length_app. simpl length.
      destruct (Nat.leb_spec (length (decimal_digits (n / 10)) + 1) (S f)),
               (Nat.leb_spec (length (decimal_digits (n / 10))) f); try lia.
      * rewrite app_assoc. do 2 f_equal. f_equal. lia.
      * reflexivity.
Qed.

Lemma fixed_digits_spec (n : Z) (f : nat) :
  0 <= n ->
  fixed_digits n f =
    decimal_digits (n / 10 ^ Z.of_nat f) ++
    match f with
    | O => []
    | S _ => "."%char :: fraction_digits f (n mod 10 ^ Z.of_nat f)
    end.
Proof.
  intros Hn. unfold fixed_digits. destruct f as [|f].
  - simpl. now rewrite Z.div_1_r, app_nil_r.
  - fold (padded n (S f)). rewrite (padded_split (S f) n Hn).
    set (ip := decimal_digits _). set (fp := fraction_digits _ _).
    assert (Hl : length fp = S f) by apply fraction_digits_length.
    rewrite length_app, Hl.
    replace (length ip + S f - S f)%nat with (length ip) by lia.
    rewrite take_app_length, drop_app_length. reflexivity.
Qed.

End DigitFacts.

(** ** Facts on division and [toFixed] *)

Module DivisionFacts.
Import Rounding NumberFacts DigitFacts.

Lemma nearest_scaled_near (m : positive) (E : Z) (f : nat) (A : Z) :
  near (Z.pos m) E (10 ^ Z.of_nat f) A -> nearest_scaled m E f = A.
Proof.
  unfold near, nearest_scaled. destruct (Z.leb_spec 0 E) as [HE | HE]; [auto|].
  intros H. assert (HD : 0 < 2 ^ (- E)) by (apply Z.pow_pos_nonneg; lia).
  set (D := 2 ^ (- E)) in *. set (X := Z.pos m * 10 ^ Z.of_nat f) in *.
  symmetry. apply Z.div_unique with (r := 2 * X + D - A * (2 * D)); lia.
Qed.

Lemma near_finish (s : bool) (R E b A : Z) :
  0 < R <= 2 ^ 53 -> near R E b A ->
  exists M E', finish s R E = S754_finite s M E' /\ near (Z.pos M) E' b A.
Proof.
  intros HR Hnear. unfold finish.
  destruct (Z.eqb_spec R (2 ^ 53)) as [-> | Hne].
  - eexists _, _. split; [reflexivity|].
    change (Z.pos (Z.to_pos (2 ^ 52))) with (2 ^ 52).
    unfold near in *.
    destruct (Z.leb_spec 0 E) as [HE | HE].
    + destruct (Z.leb_spec 0 (E + 1)); [|lia].
      rewrite Z.pow_add_r by lia. rewrite <- Hnear.
      change (2 ^ 53) with (2 ^ 52 * 2). change (2 ^ 1) with 2. ring.
    + destruct (Z.leb_spec 0 (E + 1)) as [HE1 | HE1].
      * assert (E = -1) by lia. subst E.
        change (2 ^ (- -1)) with 2 in Hnear. change (2 ^ (-1 + 1)) with 1.
        change (2 ^ 53) with (2 ^ 52 * 2) in Hnear. lia.
      * replace (- E) with (Z.succ (- (E + 1))) in Hnear by lia.
        rewrite Z.pow_succ_r in Hnear by lia.
        change (2 ^ 53) with (2 ^ 52 * 2) in Hnear.
        set (D := 2 ^ (- (E + 1))) in *. lia.
  - exists (Z.to_pos R), E. split; [reflexivity|].
    rewrite Z2Pos.id by lia. exact Hnear.
Qed.

Lemma new_location_spec (m r : Z) :
  0 < m -> 0 <= r < m ->
  new_location m r = if r =? 0 then loc_Exact else loc_Inexact (2 * r ?= m).
Proof.
  intros Hm Hr. unfold new_location.
  destruct (Z.even m) eqn:Ev; [reflexivity|].
  unfold new_location_odd. destruct (r =? 0); [reflexivity|]. f_equal.
  assert (Hodd : Z.odd m = true) by (rewrite <- Z.negb_even, Ev; reflexivity).
  apply Z.odd_spec in Hodd as [k Hk].
  destruct (Z.compare_spec (2 * r + 1) m), (Z.compare_spec (2 * r) m); lia || reflexivity.
Qed.

Lemma SFdiv_core_normal (m1 m2 : positive) (e1 e2 : Z) :
  2 ^ 52 <= Z.pos m1 < 2 ^ 53 -> 2 ^ 52 <= Z.pos m2 < 2 ^ 53 ->
  -1021 <= e1 - e2 ->
  SFdiv_core_binary prec emax (Z.pos m1) e1 (Z.pos m2) e2 =
    (Z.pos m1 * 2 ^ 53 / Z.pos m2, e1 - e2 - 53,
     new_location (Z.pos m2) ((Z.pos m1 * 2 ^ 53) mod Z.pos m2)).
Proof.
  intros H1 H2 He. unfold SFdiv_core_binary. cbv zeta.
  rewrite !Zdigits2_53 by assumption.
  rewrite fexp_normal by lia.
  replace (Z.min (53 + e1 - (53 + e2) - 53) (e1 - e2)) with (e1 - e2 - 53) by lia.
  replace (e1 - e2 - (e1 - e2 - 53)) with 53 by lia.
  cbv beta iota. rewrite Z.shiftl_mul_pow2 by lia.
  unfold Z.div, Z.modulo.
  destruct (Z.div_eucl (Z.pos m1 * 2 ^ 53) (Z.pos m2)) as [q r]. reflexivity.
Qed.

Lemma shr_1_bits (m : Z) (rb sb : bool) :
  0 <= m ->
  shr_1 {| shr_m := m; shr_r := rb; shr_s := sb |} =
    {| shr_m := m / 2; shr_r := Z.odd m; shr_s := rb || sb |}.
Proof.
  intros Hm.
  pose proof (shr_1_m {| shr_m := m; shr_r := rb; shr_s := sb |} Hm) as H.
  simpl shr_m in H. rewrite <- H.
  destruct m as [|[p|p|]|p]; try lia; reflexivity.
Qed.

Lemma round_half (q m2 r : Z) :
  0 <= q -> 0 <= r < m2 ->
  let l := if r =? 0 then loc_Exact else loc_Inexact (2 * r ?= m2) in
  let mrs := shr_1 (shr_record_of_loc q l) in
  let R := round_nearest_even (q / 2) (loc_of_shr_record mrs) in
  Z.abs (2 * R * m2 - (q * m2 + r)) <= m2 /\ (R = q / 2 \/ R = q / 2 + 1).
Proof.
  intros Hq Hr l mrs R.
  split; [|apply round_nearest_even_cases].
  pose proof (Z.div_mod q 2 ltac:(lia)) as Hdm. rewrite Zmod_odd in Hdm.
  set (h := q / 2) in *.
  assert (Hl : loc_of_shr_record mrs =
               match Z.odd q, r =? 0 with
               | false, true => loc_Exact
               | false, false => loc_Inexact Lt
               | true, true => loc_Inexact Eq
               | true, false => loc_Inexact Gt
               end).
  { subst mrs l. destruct (r =? 0); [|destruct (2 * r ?= m2)];
      unfold shr_record_of_loc; rewrite shr_1_bits by assumption;
      destruct (Z.odd q); reflexivity. }
  subst R. rewrite Hl. clear Hl mrs l.
  destruct (Z.odd q), (Z.eqb_spec r 0) as [-> | Hnz]; unfold round_nearest_even.
  - destruct (Z.even h).
    + replace (2 * h * m2 - (q * m2 + 0)) with (- m2) by (rewrite Hdm; ring). lia.
    + replace (2 * (h + 1) * m2 - (q * m2 + 0)) with m2 by (rewrite Hdm; ring). lia.
  - replace (2 * (h + 1) * m2 - (q * m2 + r)) with (m2 - r) by (rewrite Hdm; ring). lia.
  - replace (2 * h * m2 - (q * m2 + 0)) with 0 by (rewrite Hdm; ring). lia.
  - replace (2 * h * m2 - (q * m2 + r)) with (- r) by (rewrite Hdm; ring). lia.
Qed.

Lemma pow2_split (x y : Z) : 0 <= x -> 0 <= y -> 2 ^ (x + y) = 2 ^ x * 2 ^ y.
Proof. intros. now apply Z.pow_add_r. Qed.

(** Dividing two canonical mantissas, the numerator below [2^52 * 2^ka]
    with [ka >= 1]. *)
Lemma div_mantissas_near (s : bool) (m1 m2 : positive) (ka kb A b : Z) :
  1 <= ka <= 52 -> 0 <= kb <= 52 ->
  Z.pos m1 = A * 2 ^ ka -> Z.pos m2 = b * 2 ^ kb ->
  2 ^ 52 <= Z.pos m1 < 2 ^ 53 -> 2 ^ 52 <= Z.pos m2 < 2 ^ 53 ->
  exists M E,
    SFdiv prec emax (S754_finite s m1 (- ka)) (S754_finite false m2 (- kb)) =
      S754_finite s M E /\
    near (Z.pos M) E b A.
Proof.
  intros Hka Hkb H1 H2 B1 B2. unfold SFdiv.
  rewrite SFdiv_core_normal by (assumption || lia).
  rewrite xorb_false_r.
  set (N := Z.pos m1 * 2 ^ 53).
  pose proof (Z.div_mod N (Z.pos m2) ltac:(lia)) as Hdm.
  pose proof (Z.mod_pos_bound N (Z.pos m2) ltac:(lia)) as Hr.
  set (q := N / Z.pos m2) in *. set (r := N mod Z.pos m2) in *.
  rewrite new_location_spec by lia.
  set (e' := - ka - - kb - 53).
  assert (Hq : 2 ^ 52 <= q < 2 ^ 54).
  { subst N. change (2 ^ 54) with (2 * 2 ^ 53). change (2 ^ 53) with (2 * 2 ^ 52) in *.
    split; nia. }
  assert (HA : 0 < A).
  { assert (0 < 2 ^ ka) by (apply Z.pow_pos_nonneg; lia). nia. }
  assert (HP : 0 < 2 ^ kb) by (apply Z.pow_pos_nonneg; lia).
  set (P := 2 ^ kb) in *.
  destruct (Z.lt_ge_cases q (2 ^ 53)) as [Hlt | Hge].
  - (* the quotient has 53 bits *)
    rewrite round_aux_53 by (subst e'; lia).
    set (l := if r =? 0 then loc_Exact else loc_Inexact (2 * r ?= Z.pos m2)).
    apply near_finish.
    { destruct (round_nearest_even_cases q l) as [-> | ->]; lia. }
    unfold near. destruct (Z.leb_spec 0 e'); [subst e'; lia|].
    replace (- e') with (53 + ka - kb) by (subst e'; lia).
    assert (HT : 0 < 2 ^ (53 + ka - kb)) by (apply Z.pow_pos_nonneg; lia).
    set (T := 2 ^ (53 + ka - kb)) in *.
    assert (HW : T * P = 2 ^ 53 * 2 ^ ka).
    { subst T P. rewrite <- !Z.pow_add_r by lia. f_equal. lia. }
    assert (H2ka : 2 <= 2 ^ ka).
    { change 2 with (2 ^ 1) at 1. apply Z.pow_le_mono_r; lia. }
    set (R := round_nearest_even q l).
    assert (HR : R = q \/ R = q + 1) by apply round_nearest_even_cases.
    assert (Hkey : (R * b - A * T) * P = (R - q) * Z.pos m2 - r).
    { replace ((R * b - A * T) * P) with (R * (b * P) - A * (T * P)) by ring.
      rewrite HW, <- H2.
      replace (A * (2 ^ 53 * 2 ^ ka)) with N by (subst N; rewrite H1; ring).
      rewrite Hdm. ring. }
    apply Z.mul_lt_mono_pos_r with P; [assumption|].
    replace (2 * Z.abs (R * b - A * T) * P) with (2 * Z.abs ((R * b - A * T) * P))
      by (rewrite Z.abs_mul, (Z.abs_eq P) by lia; ring).
    rewrite Hkey, HW.
    change (2 ^ 53) with (2 * 2 ^ 52) in *.
    destruct HR as [-> | ->].
    + replace ((q - q) * Z.pos m2 - r) with (- r) by ring. nia.
    + replace ((q + 1 - q) * Z.pos m2 - r) with (Z.pos m2 - r) by ring. nia.
  - (* the quotient has 54 bits *)
    rewrite round_aux_54 by (subst e'; lia).
    destruct (round_half q (Z.pos m2) r ltac:(lia) Hr) as [Hhalf HR].
    cbv zeta in Hhalf, HR.
    set (R := round_nearest_even (q / 2) _) in *.
    assert (Hh : 2 ^ 52 <= q / 2 < 2 ^ 53).
    { split; [apply Z.div_le_lower_bound | apply Z.div_lt_upper_bound]; lia. }
    apply near_finish; [lia|].
    unfold near. destruct (Z.leb_spec 0 (e' + 1)); [subst e'; lia|].
    replace (- (e' + 1)) with (52 + ka - kb) by (subst e'; lia).
    assert (HT : 0 < 2 ^ (52 + ka - kb)) by (apply Z.pow_pos_nonneg; lia).
    set (T := 2 ^ (52 + ka - kb)) in *.
    assert (HW : T * P = 2 ^ 52 * 2 ^ ka).
    { subst T P. rewrite <- !Z.pow_add_r by lia. f_equal. lia. }
    assert (H2ka : 2 <= 2 ^ ka).
    { change 2 with (2 ^ 1) at 1. apply Z.pow_le_mono_r; lia. }
    assert (Hkey : 2 * ((R * b - A * T) * P) = 2 * R * Z.pos m2 - (q * Z.pos m2 + r)).
    { replace (2 * ((R * b - A * T) * P)) with (2 * R * (b * P) - A * (2 * (T * P))) by ring.
      rewrite HW, <- H2.
      replace (A * (2 * (2 ^ 52 * 2 ^ ka))) with N
        by (subst N; rewrite H1; change (2 ^ 53) with (2 * 2 ^ 52); ring).
      rewrite Hdm. ring. }
    apply Z.mul_lt_mono_pos_r with P; [assumption|].
    replace (2 * Z.abs (R * b - A * T) * P) with (Z.abs (2 * ((R * b - A * T) * P)))
      by (rewrite !Z.abs_mul, (Z.abs_eq P), (Z.abs_eq 2) by lia; ring).
    rewrite Hkey, HW.
    change (2 ^ 53) with (2 * 2 ^ 52) in *. nia.
Qed.

Lemma div_of_Z_near (a b : Z) :
  0 < Z.abs a < 2 ^ 52 -> 0 < b < 2 ^ 53 ->
  exists M E,
    Number.div (of_Z a) (of_Z b) = S754_finite (a <? 0) M E /\
    near (Z.pos M) E b (Z.abs a).
Proof.
  intros Ha Hb.
  destruct (of_Z_canonical a) as (m1 & e1 & -> & He1 & Hm1 & B1); [lia|].
  destruct (of_Z_canonical b) as (m2 & e2 & -> & He2 & Hm2 & B2); [lia|].
  destruct (Z.ltb_spec b 0) as [|_]; [lia|].
  rewrite (Z.abs_eq b) in Hm2 by lia.
  assert (e1 <> 0).
  { intros ->. change (2 ^ (- 0)) with 1 in Hm1. lia. }
  unfold Number.div.
  replace e1 with (- - e1) by lia. replace e2 with (- - e2) by lia.
  apply div_mantissas_near; try assumption; lia.
Qed.

Lemma toFixed_near (s : bool) (M : positive) (E : Z) (f : nat) (A : Z) :
  (f <= 100)%nat -> 0 <= A < 10 ^ 21 ->
  near (Z.pos M) E (10 ^ Z.of_nat f) A ->
  toFixed (S754_finite s M E) f =
    Ok (string_of_list_ascii
          (if s then "-"%char :: fixed_digits A f else fixed_digits A f)).
Proof.
  intros Hf HA Hnear. unfold toFixed.
  destruct (Nat.ltb_spec 100 f); [lia|].
  rewrite (nearest_scaled_near M E f A Hnear).
  destruct (Z.leb_spec 0 E) as [HE | HE]; [|reflexivity].
  unfold near in Hnear. destruct (Z.leb_spec 0 E); [|lia].
  assert (0 < 10 ^ Z.of_nat f) by (apply Z.pow_pos_nonneg; lia).
  assert (0 < 2 ^ E) by (apply Z.pow_pos_nonneg; lia).
  destruct (Z.leb_spec (10 ^ 21) (Z.pos M * 2 ^ E)); [|reflexivity].
  exfalso. nia.
Qed.

Lemma toFixed_zero (s : bool) (f : nat) :
  (f <= 100)%nat ->
  toFixed (S754_zero s) f = Ok (string_of_list_ascii (fixed_digits 0 f)).
Proof. intros Hf. unfold toFixed. destruct (Nat.ltb_spec 100 f); [lia | reflexivity]. Qed.

Lemma pow10_safe (f : nat) : (f <= 15)%nat -> 0 < 10 ^ Z.of_nat f < 2 ^ 53.
Proof.
  intros Hf. split; [apply Z.pow_pos_nonneg; lia|].
  apply Z.le_lt_trans with (10 ^ 15); [apply Z.pow_le_mono_r; lia | reflexivity].
Qed.

Lemma toFixed_div_decimal (a : Z) (f : nat) :
  Z.abs a < 2 ^ 52 -> (f <= 15)%nat ->
  toFixed (Number.div (of_Z a) (of_Z (10 ^ Z.of_nat f))) f = Ok (decimal_string a f).
Proof.
  intros Ha Hf. pose proof (pow10_safe f Hf) as Hb.
  unfold decimal_string. rewrite <- fixed_digits_spec by lia.
  destruct (Z.eq_dec a 0) as [-> | Hnz].
  - destruct (of_Z_canonical (10 ^ Z.of_nat f)) as (m2 & e2 & -> & _); [lia|].
    change (of_Z 0) with (S754_zero false).
    destruct (10 ^ Z.of_nat f <? 0); simpl Number.div;
      rewrite toFixed_zero by lia; reflexivity.
  - destruct (div_of_Z_near a (10 ^ Z.of_nat f)) as (M & E & -> & Hnear); [lia | lia |].
    rewrite (toFixed_near _ M E f (Z.abs a)); [| lia | | exact Hnear].
    + destruct (a <? 0); reflexivity.
    + split; [lia|]. apply Z.lt_trans with (2 ^ 52); [lia | reflexivity].
Qed.

End DivisionFacts.

(** ** Facts on [split] *)

Module JsStringFacts.
Import JsString.

Lemma split_not_nil (sep : ascii) (text : string) : split sep text <> [].
Proof.
  induction text as [|c rest IH]; simpl; [discriminate|].
  destruct (c =? sep)%char; [discriminate|].
  destruct (split sep rest); [contradiction | discriminate].
Qed.

Lemma split_without (sep : ascii) (text : string) :
  includes sep text = false -> split sep text = [text].
Proof.
  induction text as [|c rest IH]; simpl; [reflexivity|].
  intros H. apply orb_false_iff in H as [Hc Hr].
  rewrite Hc, (IH Hr). reflexivity.
Qed.

Lemma split_app (sep : ascii) (piece rest : string) :
  includes sep piece = false ->
  split sep (piece ++ String sep rest) = piece :: split sep rest.
Proof.
  induction piece as [|c piece IH]; simpl.
  - intros _. now rewrite Ascii.eqb_refl.
  - intros H. apply orb_false_iff in H as [Hc Hr].
    rewrite Hc, (IH Hr). reflexivity.
Qed.

End JsStringFacts.

(** ** Currency *)

Module CurrencySpec.

Section Table.
Variable currencies : gmap string member.

Lemma parse_found (code : string) (v : member) :
  currencies !! code = Some v ->
  Currency.parse currencies code = Ok (Currency.new v).
Proof. intros H. unfold Currency.parse, read_member. now rewrite H. Qed.

Lemma parse_inherited (code : string) :
  currencies !! code = None -> code ∈ Object_prototype ->
  Currency.parse currencies code = Ok (Currency.new Other).
Proof.
  intros H Hin. unfold Currency.parse, read_member.
  now rewrite H, bool_decide_eq_true_2.
Qed.

Lemma parse_missing (code : string) :
  currencies !! code = None -> code ∉ Object_prototype ->
  Currency.parse currencies code = Throw (new_InvalidCurrencyException code).
Proof.
  intros H Hin. unfold Currency.parse, read_member.
  now rewrite H, bool_decide_eq_false_2.
Qed.

End Table.

Lemma sample_currencies_keys (k : string) (c : DineroCurrency) :
  sample_currencies !! k = Some (Entry c) -> dinero_code c = k.
Proof.
  unfold sample_currencies. intros H.
  repeat (apply lookup_insert_Some in H as [[<- H] | [_ H]];
          [injection H as <-; reflexivity|]).
  rewrite lookup_empty in H. discriminate.
Qed.

(** Claim C7 fails on the code: [Currency.parse] reads [currencies[key]]
    without asking whether the key is the table's own.  The text
    "toString" is no key of the table, yet the read finds the member
    inherited from [Object.prototype], which is truthy: no
    [InvalidCurrencyException] is thrown and a [Currency] is returned whose
    code, exponent and base are [undefined]. *)
Lemma Currency_parse_inherited_member :
  sample_currencies !! "toString" = None /\
  Currency.parse sample_currencies "toString" = Ok (Currency.new Other) /\
  Currency.parse sample_currencies "toString" <>
    Throw (InvalidCurrencyException "Invalid currency: 'toString'") /\
  Currency.code (Currency.new Other) = None /\
  Currency.exponent (Currency.new Other) = None /\
  Currency.base (Currency.new Other) = None.
Proof. vm_compute. repeat split. discriminate. Qed.

End CurrencySpec.

(** ** Money *)

Module MoneySpec.
Import Rounding NumberFacts DigitFacts DivisionFacts JsStringFacts.

Lemma new_spec (amount : number) (currency : Currency.t) :
  is_number amount ->
  Money.new amount currency =
    if outside_envelope amount then Throw (MoneyException "Unsafe integer amount!") else Ok (Money.mk amount currency).
Proof.
  intros Hn. unfold Money.new, outside_envelope.
  pose proof (gt_MAX_SAFE_INTEGER amount Hn) as Hgt.
  pose proof (lt_MIN_SAFE_INTEGER amount Hn) as Hlt.
  destruct (Number.gt amount MAX_SAFE_INTEGER).
  - rewrite (proj1 Hgt eq_refl). reflexivity.
  - destruct (Number.lt amount MIN_SAFE_INTEGER).
    + rewrite (proj1 Hlt eq_refl).
      destruct (compare_Z amount (2 ^ 53 - 1)) as [[]|]; reflexivity.
    + simpl.
      destruct (compare_Z amount (2 ^ 53 - 1)) as [[]|];
        destruct (compare_Z amount (- (2 ^ 53 - 1))) as [[]|];
        try reflexivity;
        solve [ discriminate (proj2 Hgt eq_refl) | discriminate (proj2 Hlt eq_refl) ].
Qed.

Lemma outside_envelope_of_Z (a : Z) :
  Z.abs a < 2 ^ 53 -> outside_envelope (of_Z a) = false.
Proof.
  intros Ha. unfold outside_envelope. rewrite !compare_Z_of_Z by assumption.
  destruct (Z.compare_spec a (2 ^ 53 - 1)), (Z.compare_spec a (- (2 ^ 53 - 1)));
    try reflexivity; lia.
Qed.

Lemma new_of_Z (a : Z) (currency : Currency.t) :
  Z.abs a <= 2 ^ 53 - 1 ->
  Money.new (of_Z a) currency = Ok (Money.mk (of_Z a) currency).
Proof.
  intros Ha. rewrite new_spec by (apply is_number_of_Z; lia).
  rewrite outside_envelope_of_Z by lia. reflexivity.
Qed.

Lemma new_inv (amount : number) (currency : Currency.t) (m : Money.t) :
  Money.new amount currency = Ok m ->
  m = Money.mk amount currency /\ forall s, amount <> S754_infinity s.
Proof.
  unfold Money.new. intros H. split.
  - destruct (_ || _); [discriminate | now injection H].
  - intros s ->. destruct s; vm_compute in H; discriminate.
Qed.

Lemma equals_code (ca cb : Currency.t) :
  Currency.equals ca cb = true <-> Currency.code ca = Currency.code cb.
Proof.
  unfold Currency.equals.
  destruct (Currency.code ca) as [x|], (Currency.code cb) as [y|];
    try (split; (discriminate || reflexivity)).
  rewrite String.eqb_eq. split; congruence.
Qed.

(** Claim C2.  For every amount, the constructor throws
    [MoneyException("Unsafe integer amount!")] exactly when the amount is
    outside the inclusive envelope [-(2^53-1), 2^53-1], and otherwise stores
    the amount and the currency unchanged.  [2^53-1] and [-(2^53-1)] are
    accepted, [2^53] and [-(2^53)] are rejected. *)
Theorem constructor_envelope (amount : number) (currency : Currency.t) :
  is_number amount ->
  Money.new amount currency =
    (if outside_envelope amount
     then Throw (MoneyException "Unsafe integer amount!")
     else Ok (Money.mk amount currency)) /\
  Money.new (of_Z (2 ^ 53 - 1)) currency = Ok (Money.mk (of_Z (2 ^ 53 - 1)) currency) /\
  Money.new (of_Z (- (2 ^ 53 - 1))) currency = Ok (Money.mk (of_Z (- (2 ^ 53 - 1))) currency) /\
  Money.new (of_Z (2 ^ 53)) currency = Throw (MoneyException "Unsafe integer amount!") /\
  Money.new (of_Z (- 2 ^ 53)) currency = Throw (MoneyException "Unsafe integer amount!").
Proof.
  intros Hn. split; [now apply new_spec|].
  repeat split; vm_compute; reflexivity.
Qed.

Lemma constructor_envelope_witness :
  is_number (of_Z 1034) /\
  Money.new (of_Z 1034) (Currency.new (Entry EUR)) = Ok (Money.mk (of_Z 1034) (Currency.new (Entry EUR))).
Proof.
  split; [vm_compute; reflexivity|].
  exact (proj1 (constructor_envelope (of_Z 1034) (Currency.new (Entry EUR)) eq_refl)).
Defined.

(** Claim C9.  The range comparison is the constructor's only validation:
    an amount that is not an integer and is not outside the envelope (such
    as 10.5) is accepted and stored unchanged. *)
Theorem constructor_accepts_non_integers (amount : number) (currency : Currency.t) :
  is_number amount ->
  outside_envelope amount = false ->
  to_Z amount = None ->
  Money.new amount currency = Ok (Money.mk amount currency).
Proof. intros Hn Hin _. rewrite new_spec by assumption. now rewrite Hin. Qed.

Lemma constructor_accepts_non_integers_witness :
  let ten_and_a_half := Number.div (of_Z 21) (of_Z 2) in
  to_Z ten_and_a_half = None /\
  Money.new ten_and_a_half (Currency.new (Entry EUR)) =
    Ok (Money.mk ten_and_a_half (Currency.new (Entry EUR))).
Proof.
  split; [vm_compute; reflexivity|].
  apply (constructor_accepts_non_integers (Number.div (of_Z 21) (of_Z 2)) (Currency.new (Entry EUR)));
    vm_compute; reflexivity.
Defined.

(** Claim C1 as stated fails: with amounts [2^53-1] and [-(2^53-2)] in the
    same currency, [compareTo] does not return the exact difference
    [2^54-3], which no number holds; it returns [2^54-4]. *)
Lemma compareTo_not_exact :
  ~ (forall a b : Money.t,
       Money.new (of_Z (2 ^ 53 - 1)) (Currency.new (Entry EUR)) = Ok a ->
       Money.new (of_Z (- (2 ^ 53 - 2))) (Currency.new (Entry EUR)) = Ok b ->
       exists r, Money.compareTo a b = Ok r /\
                 to_Z r = Some ((2 ^ 53 - 1) - (- (2 ^ 53 - 2)))).
Proof.
  intros H.
  destruct (H (Money.mk (of_Z (2 ^ 53 - 1)) (Currency.new (Entry EUR)))
              (Money.mk (of_Z (- (2 ^ 53 - 2))) (Currency.new (Entry EUR)))
              eq_refl eq_refl) as (r & Hr & Hz).
  vm_compute in Hr. injection Hr as <-. vm_compute in Hz. discriminate.
Qed.

(** Claim C1, amended.  For integer amounts [a] and [b] of the envelope,
    [compareTo] throws [MoneyException] with the message "Impossible to
    compare monetary values with different currencies." exactly when the
    codes differ, and otherwise returns the number nearest to [a - b]:
    [a - b] itself whenever [|a - b| <= 2^53], and in every case positive
    when [a > b], negative when [a < b] and zero when [a = b]. *)
Theorem compareTo_nearest_difference (a b : Z) (ca cb : Currency.t) :
  Z.abs a <= 2 ^ 53 - 1 -> Z.abs b <= 2 ^ 53 - 1 ->
  exists ma mb,
    Money.new (of_Z a) ca = Ok ma /\ Money.new (of_Z b) cb = Ok mb /\
    (Currency.code ca <> Currency.code cb ->
       Money.compareTo ma mb =
         Throw (MoneyException
                  "Impossible to compare monetary values with different currencies.")) /\
    (Currency.code ca = Currency.code cb ->
       Money.compareTo ma mb = Ok (of_Z (a - b)) /\
       (Z.abs (a - b) <= 2 ^ 53 -> to_Z (of_Z (a - b)) = Some (a - b)) /\
       Number.gt (of_Z (a - b)) zero = (b <? a) /\
       Number.lt (of_Z (a - b)) zero = (a <? b) /\
       strict_equals (of_Z (a - b)) zero = (a =? b)).
Proof.
  intros Ha Hb. eexists _, _. split; [now apply new_of_Z|]. split; [now apply new_of_Z|].
  unfold Money.compareTo, Money.hasSameCurrency. simpl. split.
  - intros Hne. destruct (Currency.equals ca cb) eqn:E; [|reflexivity].
    apply equals_code in E. contradiction.
  - intros Heq. rewrite (proj2 (equals_code ca cb) Heq). simpl.
    rewrite sub_of_Z by lia.
    destruct (sign_of_Z (a - b)) as (Hgt & Hlt & Heqb); [lia|].
    split; [reflexivity|]. split; [apply to_Z_of_Z|].
    rewrite Hgt, Hlt, Heqb. repeat split.
    + destruct (Z.ltb_spec 0 (a - b)), (Z.ltb_spec b a); lia || reflexivity.
    + destruct (Z.ltb_spec (a - b) 0), (Z.ltb_spec a b); lia || reflexivity.
    + destruct (Z.eqb_spec (a - b) 0), (Z.eqb_spec a b); lia || reflexivity.
Qed.

Lemma compareTo_nearest_difference_witness :
  exists ma mb,
    Money.new (of_Z 1034) (Currency.new (Entry EUR)) = Ok ma /\
    Money.new (of_Z 500) (Currency.new (Entry EUR)) = Ok mb /\
    Money.compareTo ma mb = Ok (of_Z 534).
Proof.
  destruct (compareTo_nearest_difference 1034 500 (Currency.new (Entry EUR)) (Currency.new (Entry EUR)))
    as (ma & mb & Ha & Hb & _ & H); [vm_compute; discriminate | vm_compute; discriminate |].
  exists ma, mb. split; [exact Ha|]. split; [exact Hb|].
  exact (proj1 (H eq_refl)).
Defined.

(** Claim C3 as stated fails: 9007199254740907 minor units of a currency
    with exponent 2 are within the envelope, and [toString] prints them as
    "90071992547409.06 EUR", one cent less than the decimal representation
    "90071992547409.07". *)
Lemma toString_loses_a_cent :
  let m := Money.mk (of_Z 9007199254740907) (Currency.new (Entry EUR)) in
  Money.new (of_Z 9007199254740907) (Currency.new (Entry EUR)) = Ok m /\
  Money.toString m = Ok "90071992547409.06 EUR"%string /\
  decimal_string 9007199254740907 2 = "90071992547409.07"%string /\
  Money.toString m <> Ok (decimal_string 9007199254740907 2 ++ " EUR")%string.
Proof. vm_compute. repeat split. discriminate. Qed.

(** Claim C3, amended.  For a currency with base 10 and exponent [e <= 15]
    and an integer amount [a] with [|a| < 2^52], [toString] returns the
    decimal representation of [a / 10^e] with exactly [e] fractional digits,
    a minus sign ahead of the digits when [a] is negative and no sign
    otherwise, followed by one space and the currency code. *)
Theorem toString_decimal (a : Z) (c : DineroCurrency) :
  dinero_base c = 10%positive ->
  (dinero_exponent c <= 15)%nat ->
  Z.abs a < 2 ^ 52 ->
  exists m,
    Money.new (of_Z a) (Currency.new (Entry c)) = Ok m /\
    Money.toString m =
      Ok (decimal_string a (dinero_exponent c) ++ " " ++ dinero_code c)%string.
Proof.
  intros Hbase Hexp Ha. eexists. split; [apply new_of_Z; lia|].
  unfold Money.toString, Money.convertAmountToDecimal. simpl.
  unfold exponentiate. rewrite Hbase, toFixed_div_decimal by assumption. reflexivity.
Qed.

Lemma toString_decimal_witness :
  exists m,
    Money.new (of_Z (-500)) (Currency.new (Entry USD)) = Ok m /\
    Money.toString m = Ok "-5.00 USD"%string.
Proof.
  destruct (toString_decimal (-500) USD) as (m & Hm & Hs);
    [reflexivity | vm_compute; lia | vm_compute; reflexivity |].
  exists m. split; [exact Hm | exact Hs].
Defined.





Section Table.
Variable currencies : gmap string member.

Lemma parse_unfold (text : string) :
  Money.parse currencies text =
    match currencies !! currencyStr text with
    | Some (Entry c) =>
        let amount := Number.mul (parseFloat (amountStr text))
                        (exponentiate (dinero_base c) (dinero_exponent c)) in
        if isNaN amount then Throw (new_MoneyParseException text)
        else Money.new (trunc amount) (Currency.new (Entry c))
    | Some Other => Throw (new_MoneyParseException text)
    | None =>
        if bool_decide (currencyStr text ∈ Object_prototype)
        then Throw (new_MoneyParseException text)
        else Throw (new_InvalidCurrencyException (currencyStr text))
    end.
Proof.
  unfold Money.parse, Currency.parse, read_member, amountStr, currencyStr.
  destruct (currencies !! _) as [[c|]|]; [reflexivity| |].
  - cbn. destruct (parseFloat _); reflexivity.
  - destruct (bool_decide _); [|reflexivity].
    cbn. destruct (parseFloat _); reflexivity.
Qed.

Lemma new_throws (x : number) (c : Currency.t) (e : exception) :
  Money.new x c = Throw e -> e = MoneyException "Unsafe integer amount!".
Proof.
  unfold Money.new. destruct (_ || _); [|discriminate]. intros H. now injection H.
Qed.

(** Claim C10.  A text without any space has no second token: the
    currency lookup is made with [undefined] and fails, so [Money.parse]
    throws [InvalidCurrencyException] (never [MoneyParseException]),
    whatever the text is. *)
Theorem parse_single_token (text : string) :
  JsString.includes " " text = false ->
  currencies !! "undefined" = None ->
  Money.parse currencies text =
    Throw (InvalidCurrencyException "Invalid currency: 'undefined'").
Proof.
  intros Hno Hundef. rewrite parse_unfold.
  unfold currencyStr. rewrite (split_without _ _ Hno). simpl.
  now rewrite Hundef.
Qed.

(** Claim C6, amended.  [Money.parse] splits the text at every space and
    reads the first two pieces only: what follows a second space is
    ignored.  A text [amount code rest] is parsed as [amount code] is (the
    same Money, or the same exception with, for [MoneyParseException], the
    longer text in the message). *)
Theorem parse_ignores_further_tokens (amount code rest : string) :
  JsString.includes " " amount = false ->
  JsString.includes " " code = false ->
  let short := (amount ++ " " ++ code)%string in
  let long := (amount ++ " " ++ code ++ " " ++ rest)%string in
  Money.parse currencies long =
    match Money.parse currencies short with
    | Throw (MoneyParseException _) => Throw (new_MoneyParseException long)
    | outcome => outcome
    end.
Proof.
  intros Ha Hc short long. subst short long.
  rewrite !parse_unfold. unfold amountStr, currencyStr.
  change (amount ++ " " ++ code ++ " " ++ rest)%string
    with (amount ++ String " " (code ++ String " " rest))%string.
  change (amount ++ " " ++ code)%string with (amount ++ String " " code)%string.
  rewrite !(split_app _ amount) by assumption.
  rewrite (split_app _ code) by assumption.
  rewrite (split_without _ code) by assumption. simpl.
  destruct (currencies !! code) as [[c|]|];
    [|reflexivity|destruct (bool_decide _); reflexivity].
  destruct (isNaN _); [reflexivity|].
  destruct (Money.new _ _) as [m|e] eqn:E; [reflexivity|].
  apply new_throws in E. now subst e.
Qed.

End Table.

(** Claim C5 fails on the code: in "10 toString" the currency token is
    no key of the table and the amount token is a number, yet [Money.parse]
    throws [MoneyParseException] and not [InvalidCurrencyException]: the
    currency read finds the member inherited from [Object.prototype],
    whose base and exponent are [undefined], so the amount is NaN. *)
Lemma parse_unrecognized_currency_inherited :
  sample_currencies !! "toString" = None /\
  parseFloat "10" = of_Z 10 /\
  Money.parse sample_currencies "10 toString" =
    Throw (MoneyParseException "Impossible to parse money: 10 toString") /\
  Money.parse sample_currencies "10 toString" <>
    Throw (InvalidCurrencyException "Invalid currency: 'toString'").
Proof. vm_compute. repeat split. discriminate. Qed.

Lemma parse_single_token_witness :
  Money.parse sample_currencies "garbage" =
    Throw (InvalidCurrencyException "Invalid currency: 'undefined'").
Proof. apply parse_single_token; vm_compute; reflexivity. Defined.

Lemma parse_ignores_further_tokens_witness :
  Money.parse sample_currencies "10.34 EUR extra" =
    match Money.parse sample_currencies "10.34 EUR" with
    | Throw (MoneyParseException _) => Throw (new_MoneyParseException "10.34 EUR extra")
    | outcome => outcome
    end.
Proof. apply (parse_ignores_further_tokens sample_currencies "10.34" "EUR" "extra"); reflexivity. Defined.

(** Claim C6 as stated fails: "10.34 EUR extra" does not fail the currency
    lookup, it parses as 10.34 EUR. *)
Lemma parse_extra_token_succeeds :
  Money.parse sample_currencies "10.34 EUR extra" =
    Ok (Money.mk (of_Z 1034) (Currency.new (Entry EUR))).
Proof. vm_compute. reflexivity. Qed.

(** Claim C4 fails on the code: 57 minor units of EUR print as
    "0.57 EUR", and parsing that text gives 56 minor units, since
    [0.57 * 100] is [56.99999999999999] in binary64 and [parse] truncates. *)
Lemma round_trip_loses_a_cent :
  let m := Money.mk (of_Z 57) (Currency.new (Entry EUR)) in
  let m' := Money.mk (of_Z 56) (Currency.new (Entry EUR)) in
  Money.new (of_Z 57) (Currency.new (Entry EUR)) = Ok m /\
  Money.toString m = Ok "0.57 EUR"%string /\
  Money.parse sample_currencies "0.57 EUR" = Ok m' /\
  Money.equals m' m = Ok false.
Proof. vm_compute. repeat split. Qed.

End MoneySpec.

(** ** Currencies: identity and parsing *)

Module CurrencyLaws.
Import Rounding NumberFacts DigitFacts DivisionFacts JsStringFacts MoneySpec.

(** Property X1.  [Currency.equals] looks at the codes only: it holds
    exactly when the two codes are the same string, whatever the bases
    and exponents, and is therefore reflexive, symmetric and
    transitive. *)
Theorem Currency_equals_equivalence (a b c : Currency.t) :
  (Currency.equals a b = true <-> Currency.code a = Currency.code b) /\
  Currency.equals a a = true /\
  Currency.equals a b = Currency.equals b a /\
  (Currency.equals a b = true -> Currency.equals b c = true -> Currency.equals a c = true).
Proof.
  split; [apply equals_code|]. split; [now apply equals_code|]. split.
  - unfold Currency.equals.
    destruct (Currency.code a), (Currency.code b); try reflexivity.
    apply String.eqb_sym.
  - rewrite !equals_code. congruence.
Qed.

Lemma Currency_equals_equivalence_witness :
  Currency.equals (Currency.new (Entry EUR)) (Currency.new (Entry EUR)) = true.
Proof.
  exact (proj2 (proj2 (proj2 (Currency_equals_equivalence
           (Currency.new (Entry EUR)) (Currency.new (Entry EUR)) (Currency.new (Entry EUR)))))
           eq_refl eq_refl).
Defined.

Section Table.
Variable currencies : gmap string member.
Hypothesis Hkeys : forall k c, currencies !! k = Some (Entry c) -> dinero_code c = k.

Lemma parse_code (code : string) (cur : Currency.t) :
  Currency.parse currencies code = Ok cur ->
  Currency.code cur =
    match currencies !! code with Some (Entry _) => Some code | _ => None end.
Proof.
  unfold Currency.parse, read_member.
  destruct (currencies !! code) as [[d|]|] eqn:E.
  - intros H. injection H as <-. unfold Currency.code. simpl.
    now rewrite (Hkeys _ _ E).
  - intros H. now injection H as <-.
  - destruct (bool_decide _); [|discriminate]. intros H. now injection H as <-.
Qed.

(** Property X2.  On a table that files every entry under its own code,
    a currency returned by [Currency.parse] prints back, by [toString],
    the code that was asked for when that code is the key of an entry,
    and [undefined] when the read found something else (an inherited
    member, for one).  Two parsed currencies are [equals] when both codes
    are keys of entries and the same string, and when neither is; a
    currency of the table never equals one made from another member. *)
Theorem Currency_parse_equals (code1 code2 : string) (c1 c2 : Currency.t) :
  Currency.parse currencies code1 = Ok c1 ->
  Currency.parse currencies code2 = Ok c2 ->
  Currency.toString c1 =
    match currencies !! code1 with Some (Entry _) => Some code1 | _ => None end /\
  Currency.equals c1 c2 =
    match currencies !! code1, currencies !! code2 with
    | Some (Entry _), Some (Entry _) => (code1 =? code2)%string
    | Some (Entry _), _ => false
    | _, Some (Entry _) => false
    | _, _ => true
    end.
Proof.
  intros H1 H2. apply parse_code in H1. apply parse_code in H2.
  unfold Currency.toString, Currency.equals. rewrite H1, H2.
  destruct (currencies !! code1) as [[]|], (currencies !! code2) as [[]|];
    split; reflexivity.
Qed.

(** Property X13.  The outcome of [Currency.parse] on every text, for a
    table that files every entry under its own code.  The key of an
    entry, compared as it is, gives the currency wrapping that entry,
    whose code is the text and whose exponent and base are the entry's.
    A text under which the module object has another member of its own,
    or none of its own and a member inherited from [Object.prototype],
    gives a currency without code, exponent and base.  Every other text,
    the empty one included, throws [InvalidCurrencyException] with the
    message [Invalid currency: 'code'].  So [parse] succeeds exactly on
    the object's own keys and on the names of the inherited members. *)
Theorem Currency_parse_outcome (code : string) :
  (forall c, currencies !! code = Some (Entry c) ->
     let cur := Currency.new (Entry c) in
     Currency.parse currencies code = Ok cur /\
     Currency.code cur = Some code /\
     Currency.exponent cur = Some (dinero_exponent c) /\
     Currency.base cur = Some (dinero_base c)) /\
  (currencies !! code = Some Other \/
   currencies !! code = None /\ code ∈ Object_prototype ->
     let cur := Currency.new Other in
     Currency.parse currencies code = Ok cur /\
     Currency.code cur = None /\
     Currency.exponent cur = None /\
     Currency.base cur = None) /\
  (currencies !! code = None -> code ∉ Object_prototype ->
     Currency.parse currencies code =
       Throw (InvalidCurrencyException ("Invalid currency: '" ++ code ++ "'"))) /\
  ((exists cur, Currency.parse currencies code = Ok cur) <->
     is_Some (currencies !! code) \/ code ∈ Object_prototype).
Proof.
  split; [|split; [|split]].
  - intros c Hc cur. subst cur. split; [now apply CurrencySpec.parse_found|].
    unfold Currency.code, Currency.exponent, Currency.base. simpl.
    now rewrite (Hkeys _ _ Hc).
  - intros Hc cur. subst cur. split; [|repeat split].
    destruct Hc as [Hc | [Hc Hin]];
      [now apply CurrencySpec.parse_found | now apply CurrencySpec.parse_inherited].
  - intros Hc Hin. now apply CurrencySpec.parse_missing.
  - unfold Currency.parse, read_member.
    destruct (currencies !! code) as [v|] eqn:Hc.
    + split; eauto.
    + destruct (bool_decide_reflect (code ∈ Object_prototype)) as [Hin | Hin].
      * split; eauto.
      * split; [intros [cur H]; discriminate|].
        intros [[c H] | H]; [discriminate | contradiction].
Qed.

End Table.

Lemma Currency_parse_equals_witness :
  Currency.toString (Currency.new (Entry USD)) = Some "USD"%string /\
  Currency.equals (Currency.new (Entry USD)) (Currency.new (Entry BRL)) = false.
Proof.
  exact (Currency_parse_equals sample_currencies CurrencySpec.sample_currencies_keys
           "USD" "BRL" (Currency.new (Entry USD)) (Currency.new (Entry BRL)) eq_refl eq_refl).
Defined.

Lemma Currency_parse_outcome_witness :
  Currency.parse sample_currencies "EUR" = Ok (Currency.new (Entry EUR)) /\
  Currency.parse sample_currencies "eur" =
    Throw (InvalidCurrencyException "Invalid currency: 'eur'") /\
  Currency.parse sample_currencies "" =
    Throw (InvalidCurrencyException "Invalid currency: ''").
Proof.
  pose proof (Currency_parse_outcome sample_currencies CurrencySpec.sample_currencies_keys)
    as H.
  split; [exact (proj1 (proj1 (H "EUR"%string) EUR eq_refl))|]. split.
  - apply (proj1 (proj2 (proj2 (H "eur"%string)))); [reflexivity|].
    apply (bool_decide_eq_false_1 _). reflexivity.
  - apply (proj1 (proj2 (proj2 (H ""%string)))); [reflexivity|].
    apply (bool_decide_eq_false_1 _). reflexivity.
Defined.

End CurrencyLaws.

(** ** [parseFloat] on written integers *)

Module ParseFacts.
Import Rounding NumberFacts DigitFacts DivisionFacts JsStringFacts MoneySpec.

Lemma digit_char_cases (d : Z) :
  0 <= d <= 9 ->
  digit_value (digit_char d) = Some d /\
  is_white_space (digit_char d) = false /\
  (digit_char d =? " ")%char = false /\
  digit_char d <> "-"%char /\ digit_char d <> "+"%char /\ digit_char d <> "I"%char.
Proof.
  intros Hd.
  assert (H : d = 0 \/ d = 1 \/ d = 2 \/ d = 3 \/ d = 4 \/ d = 5 \/ d = 6 \/ d = 7 \/
              d = 8 \/ d = 9) by lia.
  repeat destruct H as [-> | H]; try subst d; repeat split; discriminate.
Qed.

Lemma decimal_digits_facts (n : Z) :
  0 <= n -> Forall is_digit (decimal_digits n) /\ digits_value 0 (decimal_digits n) = n.
Proof.
  induction n as [n IH] using (well_founded_induction (Z.lt_wf 0)). intros Hn.
  destruct (Z.lt_ge_cases n 10) as [Hlt | Hge].
  - rewrite decimal_digits_small by lia. split.
    + repeat constructor. exists n. split; [lia | reflexivity].
    + unfold digits_value. simpl.
      destruct (digit_char_cases n ltac:(lia)) as (Hv & _).
      unfold digit_value in Hv.
      destruct ((48 <=? _) && _); [injection Hv as Hv; lia | discriminate].
  - rewrite decimal_digits_step by lia.
    assert (Hq : 0 <= n / 10 < n) by (split; [apply Z.div_pos | apply Z.div_lt]; lia).
    destruct (IH (n / 10) ltac:(lia) ltac:(lia)) as [IHf IHv].
    pose proof (Z.mod_pos_bound n 10 ltac:(lia)) as Hr. split.
    + apply Forall_app. split; [assumption|].
      repeat constructor. exists (n mod 10). split; [lia | reflexivity].
    + unfold digits_value in *. rewrite fold_left_app, IHv. simpl.
      destruct (digit_char_cases (n mod 10) ltac:(lia)) as (Hv & _).
      unfold digit_value in Hv.
      destruct ((48 <=? _) && _); [injection Hv as Hv | discriminate].
      pose proof (Z.div_mod n 10 ltac:(lia)). lia.
Qed.

Lemma take_digits_digits (digits : list ascii) (count : nat) (value : Z) :
  Forall is_digit digits ->
  take_digits (string_of_list_ascii digits) count value =
    ((count + length digits)%nat, digits_value value digits, EmptyString).
Proof.
  intros H. revert count value. induction H as [|c digits [d [Hd ->]] _ IH];
    intros count value; simpl.
  - repeat f_equal. lia.
  - destruct (digit_char_cases d Hd) as (Hv & _). rewrite Hv, IH.
    unfold digits_value. simpl. unfold digit_value in Hv.
    destruct ((48 <=? _) && _); [injection Hv as ->|discriminate].
    repeat f_equal. lia.
Qed.

Lemma includes_digits (digits : list ascii) :
  Forall is_digit digits -> JsString.includes " " (string_of_list_ascii digits) = false.
Proof.
  induction 1 as [|c digits [d [Hd ->]] _ IH]; simpl; [reflexivity|].
  destruct (digit_char_cases d Hd) as (_ & _ & -> & _). exact IH.
Qed.

Lemma prefix_Infinity (c : ascii) (rest : string) :
  c <> "I"%char -> String.prefix "Infinity" (String c rest) = false.
Proof.
  intros Hc.
  change (String.prefix "Infinity" (String c rest))
    with (if ascii_dec "I"%char c then String.prefix "nfinity" rest else false).
  destruct (ascii_dec "I"%char c) as [Heq | _]; [now destruct Hc | reflexivity].
Qed.

Lemma binary_normalize_nonzero (z : Z) (s : bool) :
  z <> 0 -> binary_normalize prec emax z 0 s = of_Z z.
Proof. intros Hz. destruct z; [contradiction | reflexivity | reflexivity]. Qed.

Lemma parse_unsigned_digits (s : bool) (digits : list ascii) :
  Forall is_digit digits -> digits <> [] ->
  parse_unsigned s (string_of_list_ascii digits) = of_decimal s (digits_value 0 digits) 0.
Proof.
  intros Hf Hne. unfold parse_unsigned. rewrite take_digits_digits by assumption.
  destruct digits as [|c ds]; [contradiction|].
  apply Forall_cons in Hf as [[d [Hd ->]] _].
  destruct (digit_char_cases d Hd) as (_ & _ & _ & _ & _ & HI).
  simpl string_of_list_ascii. rewrite prefix_Infinity by assumption.
  reflexivity.
Qed.

Lemma parseFloat_digits (negative : bool) (digits : list ascii) :
  Forall is_digit digits -> digits <> [] ->
  parseFloat (string_of_list_ascii ((if negative then ["-"%char] else []) ++ digits)) =
    of_decimal negative (digits_value 0 digits) 0.
Proof.
  intros Hf Hne. unfold parseFloat. destruct negative.
  - simpl app. simpl string_of_list_ascii. simpl trim_start.
    now apply parse_unsigned_digits.
  - simpl app. rewrite <- (parse_unsigned_digits false digits Hf Hne).
    destruct digits as [|c ds]; [contradiction|].
    apply Forall_cons in Hf as [[d [Hd ->]] _].
    destruct (digit_char_cases d Hd) as (_ & Hw & _ & Hm & Hp & _).
    simpl string_of_list_ascii. simpl trim_start. rewrite Hw.
    destruct (digit_char d) as [[] [] [] [] [] [] [] []]; try reflexivity;
      solve [now destruct Hm | now destruct Hp].
Qed.

(** [parseFloat] reads back an integer written in decimal. *)
Lemma parseFloat_decimal (a : Z) : parseFloat (decimal_string a 0) = of_Z a.
Proof.
  unfold decimal_string. rewrite Z.pow_0_r, Z.div_1_r, app_nil_r.
  destruct (decimal_digits_facts (Z.abs a) ltac:(lia)) as [Hf Hv].
  pose proof (decimal_digits_length (Z.abs a) ltac:(lia)) as Hl.
  rewrite parseFloat_digits, Hv; [|assumption|].
  - unfold of_decimal. destruct (Z.abs a) as [|p|p] eqn:E; try lia.
    + replace a with 0 by lia. reflexivity.
    + rewrite <- E. change (0 <=? 0) with true. cbv iota.
      rewrite Z.pow_0_r, Z.mul_1_r, cond_Zopp_abs.
      apply binary_normalize_nonzero. lia.
  - intros E. rewrite E in Hl. simpl in Hl. lia.
Qed.

End ParseFacts.

(** ** Round trip for currencies without minor units *)

Module RoundTrip.
Import Rounding NumberFacts DigitFacts DivisionFacts JsStringFacts MoneySpec ParseFacts.

Lemma round_aux_exact_shift (s : bool) (m e k : Z) :
  2 ^ 52 <= m < 2 ^ 53 -> 0 <= k -> -1074 <= e <= 970 ->
  binary_round_aux prec emax s (m * 2 ^ k) (e - k) loc_Exact = S754_finite s (Z.to_pos m) e.
Proof.
  intros Hm Hk He. unfold binary_round_aux. unfold shr_fexp at 1.
  assert (H2 : 0 < 2 ^ k) by (apply Z.pow_pos_nonneg; lia).
  assert (Hd : Zdigits2 (m * 2 ^ k) = 53 + k).
  { destruct (m * 2 ^ k) as [|p|p] eqn:E; try nia. simpl.
    apply digits2_pos_unique. rewrite <- E.
    replace (53 + k - 1) with (52 + k) by lia. rewrite !Z.pow_add_r by lia. nia. }
  rewrite Hd, fexp_normal by lia.
  replace (53 + k + (e - k) - 53 - (e - k)) with (k + 0) by lia.
  change (shr_record_of_loc (m * 2 ^ k) loc_Exact) with (exact_record (m * 2 ^ k)).
  rewrite shr_exact by lia.
  replace (e - k + k) with e by lia.
  change (shr (exact_record m) e 0) with (exact_record m, e). cbv beta iota.
  change (round_nearest_even (shr_m (exact_record m)) (loc_of_shr_record (exact_record m)))
    with m.
  rewrite round_tail_53 by lia. unfold finish.
  destruct (Z.eqb_spec m (2 ^ 53)); [lia | reflexivity].
Qed.

Lemma of_Z_one : of_Z 1 = S754_finite false 4503599627370496 (-52).
Proof. vm_compute. reflexivity. Qed.

Lemma mul_of_Z_one (z : Z) : Z.abs z < 2 ^ 53 -> Number.mul (of_Z z) (of_Z 1) = of_Z z.
Proof.
  intros Hz. rewrite of_Z_one.
  destruct (Z.eq_dec z 0) as [-> | Hnz]; [reflexivity|].
  destruct (of_Z_canonical z) as (m & e & -> & He & _ & Hm); [lia|].
  unfold Number.mul, SFmul. rewrite xorb_false_r, Pos2Z.inj_mul.
  change (Z.pos 4503599627370496) with (2 ^ 52).
  change (e + -52) with (e - 52).
  rewrite round_aux_exact_shift by lia. reflexivity.
Qed.

Lemma trunc_of_Z (z : Z) : Z.abs z < 2 ^ 53 -> trunc (of_Z z) = of_Z z.
Proof.
  intros Hz. destruct (Z.eq_dec z 0) as [-> | Hnz]; [reflexivity|].
  destruct (of_Z_canonical z) as (m & e & E & He & Hm & _); [lia|].
  rewrite E. unfold trunc. destruct (Z.leb_spec 0 e) as [|Hneg]; [reflexivity|].
  assert (H2 : 0 < 2 ^ (- e)) by (apply Z.pow_pos_nonneg; lia).
  rewrite Hm, Z.div_mul by lia.
  destruct (Z.abs z) as [|q|q] eqn:Eq; try lia.
  rewrite <- Eq, cond_Zopp_abs, binary_normalize_nonzero by lia. exact E.
Qed.

Section Table.
Variable currencies : gmap string member.

(** Property X8.  For a currency without minor units (exponent 0, any
    base) that the table files under its code, and an integer amount [a]
    with [|a| < 2^52], [toString] writes the decimal digits of [a], a
    space and the code, and [Money.parse] reads that text back as the
    same [Money]. *)
Theorem round_trip_without_minor_units (a : Z) (c : DineroCurrency) :
  dinero_exponent c = 0%nat ->
  Z.abs a < 2 ^ 52 ->
  currencies !! dinero_code c = Some (Entry c) ->
  JsString.includes " " (dinero_code c) = false ->
  let m := Money.mk (of_Z a) (Currency.new (Entry c)) in
  Money.toString m = Ok (decimal_string a 0 ++ " " ++ dinero_code c)%string /\
  Money.parse currencies (decimal_string a 0 ++ " " ++ dinero_code c) = Ok m.
Proof.
  intros Hexp Ha Hkey Hcode m. subst m. split.
  - unfold Money.toString, Money.convertAmountToDecimal. simpl.
    unfold exponentiate.
    rewrite Hexp. change (Z.of_nat 0) with 0. rewrite Z.pow_0_r.
    change 1 with (10 ^ Z.of_nat 0) at 1.
    rewrite toFixed_div_decimal by lia. reflexivity.
  - rewrite parse_unfold. unfold amountStr, currencyStr.
    assert (Hamount : JsString.includes " " (decimal_string a 0) = false).
    { unfold decimal_string. rewrite Z.pow_0_r, Z.div_1_r, app_nil_r.
      destruct (decimal_digits_facts (Z.abs a) ltac:(lia)) as [Hf _].
      destruct (a <? 0); simpl; now apply includes_digits. }
    change (decimal_string a 0 ++ " " ++ dinero_code c)%string
      with (decimal_string a 0 ++ String " " (dinero_code c))%string.
    rewrite split_app, split_without by assumption. simpl.
    rewrite Hkey. cbv zeta.
    unfold exponentiate. rewrite Hexp.
    change (Z.of_nat 0) with 0. rewrite Z.pow_0_r.
    rewrite parseFloat_decimal, mul_of_Z_one, trunc_of_Z by lia.
    assert (Hnan : isNaN (of_Z a) = false) by apply binary_normalize_not_nan.
    rewrite Hnan, new_of_Z by lia. reflexivity.
Qed.

End Table.

Lemma round_trip_without_minor_units_witness :
  Money.toString (Money.mk (of_Z (-1500)) (Currency.new (Entry JPY))) = Ok "-1500 JPY"%string /\
  Money.parse sample_currencies "-1500 JPY" = Ok (Money.mk (of_Z (-1500)) (Currency.new (Entry JPY))).
Proof.
  exact (round_trip_without_minor_units sample_currencies (-1500) JPY
           eq_refl ltac:(vm_compute; reflexivity) eq_refl eq_refl).
Defined.

End RoundTrip.

(** ** What [Money.parse] returns *)

Module ParseInvariant.
Import Rounding NumberFacts DigitFacts DivisionFacts JsStringFacts MoneySpec ParseFacts RoundTrip.

Lemma shr_exponent (mrs : shr_record) (e n : Z) : e <= snd (shr mrs e n).
Proof. destruct n; simpl; lia. Qed.

(** An integer of [2^53] or more rounds to a number with a positive
    exponent, or to infinity. *)
Lemma binary_round_large (s : bool) (q : positive) :
  2 ^ 53 <= Z.pos q ->
  match binary_round prec emax s q 0 with
  | S754_finite _ _ e => 1 <= e
  | S754_nan => False
  | _ => True
  end.
Proof.
  intros Hq.
  assert (Hnan : isNaN (binary_round prec emax s q 0) = false).
  { unfold binary_round. destruct (shl_align q 0 _) as [mz ez].
    apply binary_round_aux_not_nan. lia. }
  rewrite binary_round_tail in *. rewrite aligned_spec in *. cbv zeta in *.
  pose proof (digits2_pos_bounds q) as [_ Hu].
  set (d := Z.pos (digits2_pos q)) in *.
  assert (Hd : 54 <= d).
  { destruct (Z.lt_ge_cases d 54) as [Hlt|]; [|assumption].
    assert (2 ^ d <= 2 ^ 53) by (apply Z.pow_le_mono_r; lia). lia. }
  assert (HE : 1 <= fexp prec emax (d + 0)) by (unfold fexp, emin, prec, emax; lia).
  set (E := fexp prec emax (d + 0)) in *.
  destruct (Z.leb_spec E 0) as [|_]; [lia|].
  rewrite shr_nat in * by lia.
  set (mrs' := Nat.iter _ _ _) in *. set (e' := 0 + (E - 0)) in *.
  assert (H1 : 1 <= e') by (subst e'; lia).
  unfold round_tail in *.
  set (R := round_nearest_even (shr_m mrs') (loc_of_shr_record mrs')) in *.
  unfold shr_fexp in *.
  pose proof (shr_exponent (shr_record_of_loc R loc_Exact) e'
                (fexp prec emax (Zdigits2 R + e') - e')) as H2.
  destruct (shr (shr_record_of_loc R loc_Exact) e' _) as [mrs'' e'']. simpl in H2.
  destruct (shr_m mrs'') as [|p|p]; [exact I | | discriminate].
  destruct (e'' <=? emax - prec); [lia | exact I].
Qed.

Lemma accepted_nonnegative_exponent (s : bool) (m : positive) (e : Z) :
  0 <= e ->
  Number.gt (S754_finite s m e) MAX_SAFE_INTEGER = false ->
  Number.lt (S754_finite s m e) MIN_SAFE_INTEGER = false ->
  e = 0 /\ Z.pos m <= 2 ^ 53 - 1.
Proof.
  intros He. rewrite MAX_SAFE_INTEGER_eq, MIN_SAFE_INTEGER_eq.
  unfold Number.gt, Number.lt, SFltb. cbv beta iota delta [SFcompare].
  destruct e as [|pe|pe]; [| |exfalso; apply He; reflexivity]; destruct s.
  - intros _. change (0 ?= 0) with Eq. cbv iota. rewrite Pos.compare_cont_spec.
    unfold Pos.switch_Eq.
    destruct (Pos.compare_spec m 9007199254740991) as [Hc | Hc | Hc];
      unfold CompOpp; try discriminate; intros _; split; try reflexivity.
    + rewrite Hc. apply Z.le_refl.
    + apply Pos2Z.pos_lt_pos in Hc. apply Z.lt_le_incl. exact Hc.
  - change (0 ?= 0) with Eq. cbv iota. rewrite Pos.compare_cont_spec.
    unfold Pos.switch_Eq.
    destruct (Pos.compare_spec 9007199254740991 m) as [Hc | Hc | Hc];
      try discriminate; intros _ _; split; try reflexivity.
    + rewrite <- Hc. apply Z.le_refl.
    + apply Pos2Z.pos_lt_pos in Hc. apply Z.lt_le_incl. exact Hc.
  - intros _. change (Z.pos pe ?= 0) with Gt. cbv iota. discriminate.
  - change (0 ?= Z.pos pe) with Lt. cbv iota. discriminate.
Qed.

Lemma accepted_trunc_is_safe_integer (y : number) (currency : Currency.t) (m : Money.t) :
  isNaN y = false ->
  Money.new (trunc y) currency = Ok m ->
  exists z, to_Z (Money.amount m) = Some z /\ Z.abs z <= 2 ^ 53 - 1.
Proof.
  intros Hnan Hnew. pose proof Hnew as Hacc.
  apply new_inv in Hnew as [-> Hinf]. simpl Money.amount.
  unfold Money.new in Hacc.
  destruct (Number.gt (trunc y) MAX_SAFE_INTEGER) eqn:Hgt; [discriminate|].
  destruct (Number.lt (trunc y) MIN_SAFE_INTEGER) eqn:Hlt; [discriminate|].
  clear Hacc.
  destruct y as [s | s | | s my e]; try discriminate.
  - exists 0. split; [reflexivity | lia].
  - now destruct (Hinf s).
  - unfold trunc in *. destruct (Z.leb_spec 0 e) as [He | He].
    + destruct (accepted_nonnegative_exponent s my e He Hgt Hlt) as [-> Hm].
      eexists. split; [reflexivity|]. rewrite Z.pow_0_r, Z.mul_1_r.
      destruct s; simpl; lia.
    + destruct (Z.pos my / 2 ^ (- e)) as [|q|q] eqn:Eq.
      * exists 0. split; [reflexivity | lia].
      * destruct (Z.lt_ge_cases (Z.pos q) (2 ^ 53)) as [Hq | Hq].
        -- exists (cond_Zopp s (Z.pos q)).
           rewrite binary_normalize_nonzero by (destruct s; discriminate).
           split; [apply to_Z_of_Z|]; destruct s; simpl; lia.
        -- pose proof (binary_round_large s q Hq) as Hr.
           assert (Hb : binary_normalize prec emax (cond_Zopp s (Z.pos q)) 0 s =
                        binary_round prec emax s q 0) by (destruct s; reflexivity).
           rewrite Hb in *.
           destruct (binary_round prec emax s q 0) as [s' | s' | | s' m' e'];
             [| now destruct (Hinf s') | contradiction |].
           ++ exists 0. split; [reflexivity | lia].
           ++ destruct (accepted_nonnegative_exponent s' m' e' ltac:(lia) Hgt Hlt). lia.
      * exists 0. split; [reflexivity | lia].
Qed.

Section Table.
Variable currencies : gmap string member.

(** Property X9.  Whatever the table and the text, a [Money] returned by
    [Money.parse] holds an integer inside the safe envelope: the
    truncated product is a whole number and the constructor has checked
    its size; NaN has been rejected before. *)
Theorem parse_yields_safe_integer (text : string) (m : Money.t) :
  Money.parse currencies text = Ok m ->
  exists z, to_Z (Money.amount m) = Some z /\ Z.abs z <= 2 ^ 53 - 1.
Proof.
  rewrite parse_unfold.
  destruct (currencies !! currencyStr text) as [[c|]|];
    [|discriminate|destruct (bool_decide _); discriminate].
  cbv zeta. destruct (isNaN _) eqn:Hnan; [discriminate|].
  now apply accepted_trunc_is_safe_integer.
Qed.

End Table.

Lemma parse_yields_safe_integer_witness :
  exists z, to_Z (of_Z 1076) = Some z /\ Z.abs z <= 2 ^ 53 - 1.
Proof.
  exact (parse_yields_safe_integer sample_currencies "10.76 EUR"
           (Money.mk (of_Z 1076) (Currency.new (Entry EUR))) eq_refl).
Defined.

End ParseInvariant.

(** ** Amount tokens that are not a plain number *)

Module LenientParse.
Import Rounding NumberFacts DigitFacts DivisionFacts JsStringFacts MoneySpec ParseFacts RoundTrip.

Lemma parseFloat_no_number (c : ascii) (rest : string) :
  starts_no_number c -> parseFloat (String c rest) = S754_nan.
Proof.
  intros (Hw & Hd & Hm & Hp & Hdot & HI).
  unfold parseFloat. simpl trim_start. rewrite Hw.
  assert (Hu : parse_unsigned false (String c rest) = S754_nan).
  { unfold parse_unsigned. rewrite prefix_Infinity by assumption.
    simpl take_digits. rewrite Hd.
    destruct c as [[] [] [] [] [] [] [] []]; try reflexivity; now destruct Hdot. }
  destruct c as [[] [] [] [] [] [] [] []]; try exact Hu;
    solve [now destruct Hm | now destruct Hp].
Qed.

Lemma take_digits_then (digits : list ascii) (c : ascii) (tail : string)
    (count : nat) (value : Z) :
  Forall is_digit digits -> digit_value c = None ->
  take_digits (string_of_list_ascii digits ++ String c tail) count value =
    ((count + length digits)%nat, digits_value value digits, String c tail).
Proof.
  intros H Hc. revert count value. induction H as [|x digits [d [Hd ->]] _ IH];
    intros count value; simpl.
  - rewrite Hc. repeat f_equal. lia.
  - destruct (digit_char_cases d Hd) as (Hv & _). rewrite Hv, IH.
    unfold digits_value. simpl. unfold digit_value in Hv.
    destruct ((48 <=? _) && _); [injection Hv as ->|discriminate].
    repeat f_equal. lia.
Qed.

Lemma parse_unsigned_integer_prefix
    (s : bool) (digits : list ascii) (c : ascii) (tail : string) :
  Forall is_digit digits -> digits <> [] -> ends_integer c ->
  parse_unsigned s (string_of_list_ascii digits ++ String c tail) =
    of_decimal s (digits_value 0 digits) 0.
Proof.
  intros Hf Hne (Hc & Hdot & He & HE). unfold parse_unsigned.
  rewrite take_digits_then by assumption.
  assert (Hx : exponent_part (String c tail) = 0).
  { unfold exponent_part.
    destruct (Ascii.eqb_spec c "e"); [contradiction|].
    destruct (Ascii.eqb_spec c "E"); [contradiction|]. reflexivity. }
  assert (Hi : String.prefix "Infinity" (string_of_list_ascii digits ++ String c tail) = false).
  { destruct digits as [|x ds]; [contradiction|].
    apply Forall_cons in Hf as [[d [Hd ->]] _].
    destruct (digit_char_cases d Hd) as (_ & _ & _ & _ & _ & HI).
    simpl string_of_list_ascii. simpl append. now apply prefix_Infinity. }
  rewrite Hi.
  assert (Hn : (0 + length digits =? 0)%nat = false).
  { destruct digits; [contradiction|reflexivity]. }
  transitivity (if (0 + length digits =? 0)%nat then S754_nan
                else of_decimal s (digits_value 0 digits) (exponent_part (String c tail))).
  - destruct c as [[] [] [] [] [] [] [] []]; try reflexivity. now destruct Hdot.
  - now rewrite Hn, Hx.
Qed.

Lemma parseFloat_integer_prefix (a : Z) (c : ascii) (tail : string) :
  ends_integer c ->
  parseFloat (decimal_string a 0 ++ String c tail) = of_Z a.
Proof.
  intros Hc.
  rewrite <- (parseFloat_decimal a).
  unfold decimal_string. rewrite Z.pow_0_r, Z.div_1_r, app_nil_r.
  destruct (decimal_digits_facts (Z.abs a) ltac:(lia)) as [Hf _].
  pose proof (decimal_digits_length (Z.abs a) ltac:(lia)) as Hl.
  set (D := decimal_digits (Z.abs a)) in *.
  assert (Hne : D <> []) by (intros E; rewrite E in Hl; simpl in Hl; lia).
  rewrite parseFloat_digits by assumption.
  unfold parseFloat.
  destruct D as [|x ds] eqn:ED; [contradiction|].
  pose proof Hf as Hf'. apply Forall_cons in Hf' as [[d [Hd Hxd]] _].
  destruct (digit_char_cases d Hd) as (_ & Hw & _ & Hm & Hp & _). rewrite <- Hxd in *.
  pose proof (parse_unsigned_integer_prefix (a <? 0) (x :: ds) c tail Hf Hne Hc) as Hu.
  destruct (a <? 0).
  - simpl app. simpl string_of_list_ascii. simpl append. simpl trim_start. exact Hu.
  - simpl app. simpl string_of_list_ascii in *. simpl append in *. simpl trim_start.
    rewrite Hw.
    destruct x as [[] [] [] [] [] [] [] []]; try exact Hu;
      solve [now destruct Hm | now destruct Hp].
Qed.

Section Table.
Variable currencies : gmap string member.

Lemma tokens (amount code : string) :
  JsString.includes " " amount = false ->
  JsString.includes " " code = false ->
  amountStr (amount ++ " " ++ code) = amount /\
  currencyStr (amount ++ " " ++ code) = code.
Proof.
  intros Hamount Hcode. unfold amountStr, currencyStr.
  change (amount ++ " " ++ code)%string with (amount ++ String " " code)%string.
  rewrite split_app, split_without by assumption. split; reflexivity.
Qed.

(** Property X11.  An amount token whose first character is neither
    white space, a digit, a sign, a point nor the letter I is not a
    number: when the currency token is in the table, [Money.parse] throws
    [MoneyParseException] carrying the whole text. *)
Theorem parse_rejects_non_numeric_amount
    (c : ascii) (rest code : string) (entry : DineroCurrency) :
  starts_no_number c ->
  JsString.includes " " (String c rest) = false ->
  JsString.includes " " code = false ->
  currencies !! code = Some (Entry entry) ->
  Money.parse currencies (String c rest ++ " " ++ code) =
    Throw (MoneyParseException
             ("Impossible to parse money: " ++ String c rest ++ " " ++ code)).
Proof.
  intros Hc Hamount Hcode Hentry. rewrite parse_unfold.
  destruct (tokens (String c rest) code Hamount Hcode) as [-> ->].
  rewrite Hentry. cbv zeta. rewrite parseFloat_no_number by assumption. reflexivity.
Qed.

(** Property X12.  [parseFloat] reads the longest numeric prefix, so
    [Money.parse] accepts an amount token made of an integer followed by
    other characters: for a currency of exponent 0 in the table, the
    digits of [a] followed by a character that is neither a digit, a
    point nor an exponent mark, and by anything without a space, parse as
    the amount [a]. *)
Theorem parse_ignores_trailing_characters
    (a : Z) (c : ascii) (tail : string) (entry : DineroCurrency) :
  ends_integer c ->
  JsString.includes " " (String c tail) = false ->
  dinero_exponent entry = 0%nat ->
  Z.abs a < 2 ^ 52 ->
  currencies !! dinero_code entry = Some (Entry entry) ->
  JsString.includes " " (dinero_code entry) = false ->
  Money.parse currencies
    ((decimal_string a 0 ++ String c tail) ++ " " ++ dinero_code entry) =
    Ok (Money.mk (of_Z a) (Currency.new (Entry entry))).
Proof.
  intros Hc Htail Hexp Ha Hkey Hcode. rewrite parse_unfold.
  assert (Hamount : JsString.includes " " (decimal_string a 0 ++ String c tail) = false).
  { unfold decimal_string. rewrite Z.pow_0_r, Z.div_1_r, app_nil_r.
    destruct (decimal_digits_facts (Z.abs a) ltac:(lia)) as [Hf _].
    assert (Hi : forall s1 s2, JsString.includes " " s1 = false ->
                 JsString.includes " " s2 = false ->
                 JsString.includes " " (s1 ++ s2) = false).
    { induction s1 as [|x s1 IH]; intros s2 H1 H2; simpl in *; [assumption|].
      apply orb_false_iff in H1 as [-> H1]. now apply IH. }
    apply Hi; [|assumption].
    destruct (a <? 0); simpl; now apply includes_digits. }
  destruct (tokens _ _ Hamount Hcode) as [-> ->].
  rewrite Hkey. cbv zeta.
  unfold exponentiate. rewrite Hexp.
  change (Z.of_nat 0) with 0. rewrite Z.pow_0_r.
  rewrite parseFloat_integer_prefix, mul_of_Z_one, trunc_of_Z by (assumption || lia).
  assert (Hnan : isNaN (of_Z a) = false) by apply binary_normalize_not_nan.
  rewrite Hnan, new_of_Z by lia. reflexivity.
Qed.

End Table.

Lemma parse_rejects_non_numeric_amount_witness :
  Money.parse sample_currencies "Aas EUR" =
    Throw (MoneyParseException "Impossible to parse money: Aas EUR").
Proof.
  apply (parse_rejects_non_numeric_amount sample_currencies "A" "as" "EUR" EUR);
    try reflexivity.
  repeat split; discriminate.
Defined.

Lemma parse_ignores_trailing_characters_witness :
  Money.parse sample_currencies "12abc JPY" = Ok (Money.mk (of_Z 12) (Currency.new (Entry JPY))).
Proof.
  apply (parse_ignores_trailing_characters sample_currencies 12 "a" "bc" JPY);
    try reflexivity.
  repeat split; discriminate.
Defined.

End LenientParse.

(** ** Comparisons, NaN, [toJSON] and currencies of parsed values *)

Module MoneyLaws.
Import Rounding NumberFacts DigitFacts DivisionFacts JsStringFacts MoneySpec ParseInvariant.

(** Property X5.  On integer amounts inside the safe envelope and one
    currency code, the three comparisons decide the order of the
    integers: [isGreaterThan], [isLessThan] and [equals] return [b < a],
    [a < b] and [a = b]; so [isGreaterThan] one way is [isLessThan] the
    other way, and [equals] is symmetric.  The subtraction in [compareTo]
    may round, its sign does not. *)
Theorem comparisons_follow_integer_order (a b : Z) (ca cb : Currency.t) :
  Z.abs a <= 2 ^ 53 - 1 -> Z.abs b <= 2 ^ 53 - 1 ->
  Currency.code ca = Currency.code cb ->
  let ma := Money.mk (of_Z a) ca in
  let mb := Money.mk (of_Z b) cb in
  Money.isGreaterThan ma mb = Ok (b <? a) /\
  Money.isLessThan ma mb = Ok (a <? b) /\
  Money.equals ma mb = Ok (a =? b) /\
  Money.isGreaterThan ma mb = Money.isLessThan mb ma /\
  Money.equals ma mb = Money.equals mb ma.
Proof.
  intros Ha Hb Hc ma mb.
  assert (H : forall x y cx cy, Z.abs x <= 2 ^ 53 - 1 -> Z.abs y <= 2 ^ 53 - 1 ->
            Currency.code cx = Currency.code cy ->
            Money.isGreaterThan (Money.mk (of_Z x) cx) (Money.mk (of_Z y) cy) = Ok (y <? x) /\
            Money.isLessThan (Money.mk (of_Z x) cx) (Money.mk (of_Z y) cy) = Ok (x <? y) /\
            Money.equals (Money.mk (of_Z x) cx) (Money.mk (of_Z y) cy) = Ok (x =? y)).
  { intros x y cx cy Hx Hy Hxy.
    unfold Money.isGreaterThan, Money.isLessThan, Money.equals, Money.compareTo,
      Money.hasSameCurrency. simpl.
    rewrite (proj2 (equals_code cx cy) Hxy). simpl.
    rewrite sub_of_Z by lia.
    destruct (sign_of_Z (x - y)) as (-> & -> & ->); [lia|].
    repeat split; f_equal.
    - destruct (Z.ltb_spec 0 (x - y)), (Z.ltb_spec y x); lia || reflexivity.
    - destruct (Z.ltb_spec (x - y) 0), (Z.ltb_spec x y); lia || reflexivity.
    - destruct (Z.eqb_spec (x - y) 0), (Z.eqb_spec x y); lia || reflexivity. }
  destruct (H a b ca cb Ha Hb Hc) as (Hgt & Hlt & Heq).
  destruct (H b a cb ca Hb Ha (eq_sym Hc)) as (Hgt' & Hlt' & Heq').
  subst ma mb. rewrite Hgt, Hlt, Heq, Hlt', Heq'. repeat split.
  now rewrite Z.eqb_sym.
Qed.

Lemma comparisons_follow_integer_order_witness :
  Money.isGreaterThan (Money.mk (of_Z 123456) (Currency.new (Entry USD)))
                      (Money.mk (of_Z 100000) (Currency.new (Entry USD))) = Ok true.
Proof.
  exact (proj1 (comparisons_follow_integer_order 123456 100000
                  (Currency.new (Entry USD)) (Currency.new (Entry USD))
                  ltac:(vm_compute; discriminate) ltac:(vm_compute; discriminate) eq_refl)).
Defined.

(** Property X6.  The constructor accepts NaN (both of its comparisons
    with the envelope are false).  A NaN amount is neither greater than,
    less than, nor equal to any amount of the same currency, itself
    included, in both directions, and [toString] prints it as the text
    NaN followed by the code ([toFixed] still refuses more than 100
    digits); for a currency made from an inherited member the code reads
    "undefined". *)
Theorem NaN_amount (currency : Currency.t) (other : Money.t) :
  Money.hasSameCurrency (Money.mk S754_nan currency) other = true ->
  let m := Money.mk S754_nan currency in
  Money.new S754_nan currency = Ok m /\
  Money.isGreaterThan m other = Ok false /\
  Money.isLessThan m other = Ok false /\
  Money.equals m other = Ok false /\
  Money.isGreaterThan other m = Ok false /\
  Money.isLessThan other m = Ok false /\
  Money.equals other m = Ok false /\
  Money.toString m =
    if (100 <? default 0 (Currency.exponent currency))%nat then Throw RangeError
    else Ok ("NaN " ++ JsString.to_string (Currency.code currency))%string.
Proof.
  intros Hsame m. subst m. split; [reflexivity|].
  assert (Hsame' : Money.hasSameCurrency other (Money.mk S754_nan currency) = true).
  { unfold Money.hasSameCurrency in *. apply equals_code. symmetry. now apply equals_code. }
  unfold Money.isGreaterThan, Money.isLessThan, Money.equals, Money.compareTo.
  rewrite Hsame, Hsame'. simpl.
  assert (Number.sub (Money.amount other) S754_nan = S754_nan) as ->
    by (unfold Number.sub; destruct (Money.amount other); reflexivity).
  repeat split.
  unfold Money.toString, Money.convertAmountToDecimal, toFixed. simpl.
  destruct (100 <? default 0 (Currency.exponent currency))%nat; reflexivity.
Qed.

Lemma NaN_amount_witness :
  Money.equals (Money.mk S754_nan (Currency.new (Entry EUR))) (Money.mk S754_nan (Currency.new (Entry EUR)))
    = Ok false.
Proof.
  exact (proj1 (proj2 (proj2 (proj2
    (NaN_amount (Currency.new (Entry EUR)) (Money.mk S754_nan (Currency.new (Entry EUR))) eq_refl))))).
Defined.

(** Property X7.  When the codes differ, [isGreaterThan], [isLessThan] and
    [equals] all fail, in both directions, with the [MoneyException] that
    [compareTo] throws: [equals] does not answer false for two amounts of
    different currencies. *)
Theorem comparisons_fail_across_currencies (a b : Money.t) :
  Currency.code (Money.currency a) <> Currency.code (Money.currency b) ->
  let failure : exception :=
    MoneyException "Impossible to compare monetary values with different currencies." in
  Money.isGreaterThan a b = Throw failure /\
  Money.isLessThan a b = Throw failure /\
  Money.equals a b = Throw failure /\
  Money.isGreaterThan b a = Throw failure /\
  Money.isLessThan b a = Throw failure /\
  Money.equals b a = Throw failure.
Proof.
  intros Hne failure.
  assert (Hab : Money.hasSameCurrency a b = false).
  { unfold Money.hasSameCurrency. apply not_true_is_false. now rewrite equals_code. }
  assert (Hba : Money.hasSameCurrency b a = false).
  { unfold Money.hasSameCurrency. apply not_true_is_false. rewrite equals_code. congruence. }
  unfold Money.isGreaterThan, Money.isLessThan, Money.equals, Money.compareTo.
  rewrite Hab, Hba. repeat split.
Qed.

Lemma comparisons_fail_across_currencies_witness :
  Money.equals (Money.mk (of_Z 100) (Currency.new (Entry EUR)))
               (Money.mk (of_Z 100) (Currency.new (Entry USD))) =
    Throw (MoneyException "Impossible to compare monetary values with different currencies.").
Proof.
  exact (proj1 (proj2 (proj2 (comparisons_fail_across_currencies
           (Money.mk (of_Z 100) (Currency.new (Entry EUR)))
           (Money.mk (of_Z 100) (Currency.new (Entry USD))) ltac:(discriminate))))).
Defined.

(** Property X4.  For an integer amount [a] with [|a| < 2^52] in a
    currency of base 10 and exponent at most 15, [toJSON] succeeds and
    returns the amount itself, the currency code, the exponent as
    precision, and as raw text the decimal writing of [a / 10^exponent]
    followed by a space and the code. *)
Theorem toJSON_record (a : Z) (c : DineroCurrency) :
  dinero_base c = 10%positive ->
  (dinero_exponent c <= 15)%nat ->
  Z.abs a < 2 ^ 52 ->
  Money.toJSON (Money.mk (of_Z a) (Currency.new (Entry c))) =
    Ok {| Money.json_amount := of_Z a;
          Money.json_currency := Some (dinero_code c);
          Money.json_raw :=
            (decimal_string a (dinero_exponent c) ++ " " ++ dinero_code c)%string;
          Money.json_precision := Some (dinero_exponent c) |}.
Proof.
  intros Hbase Hexp Ha.
  unfold Money.toJSON, Money.toString, Money.convertAmountToDecimal. simpl.
  unfold exponentiate. rewrite Hbase, toFixed_div_decimal by assumption. reflexivity.
Qed.

Lemma toJSON_record_witness :
  Money.toJSON (Money.mk (of_Z 12345) (Currency.new (Entry USD))) =
    Ok {| Money.json_amount := of_Z 12345;
          Money.json_currency := Some "USD"%string;
          Money.json_raw := "123.45 USD";
          Money.json_precision := Some 2%nat |}.
Proof.
  exact (toJSON_record 12345 USD eq_refl
           ltac:(vm_compute; lia) ltac:(vm_compute; reflexivity)).
Defined.

Section Table.
Variable currencies : gmap string member.

Lemma parse_currency (text : string) (m : Money.t) :
  Money.parse currencies text = Ok m ->
  exists c, currencies !! currencyStr text = Some (Entry c) /\
            Money.currency m = Currency.new (Entry c).
Proof.
  rewrite parse_unfold.
  destruct (currencies !! currencyStr text) as [[c|]|];
    [|discriminate|destruct (bool_decide _); discriminate].
  cbv zeta. destruct (isNaN _); [discriminate|].
  intros H. apply new_inv in H as [-> _]. eauto.
Qed.

(** Property X3.  On a table that files every entry under its own code,
    a parsed [Money] carries the code written in the currency token of
    its text; two parsed values have the same currency exactly when their
    currency tokens are the same string, and [hasSameCurrency] is
    symmetric on them. *)
Theorem parsed_same_currency (text1 text2 : string) (m1 m2 : Money.t) :
  (forall k c, currencies !! k = Some (Entry c) -> dinero_code c = k) ->
  Money.parse currencies text1 = Ok m1 ->
  Money.parse currencies text2 = Ok m2 ->
  Currency.code (Money.currency m1) = Some (currencyStr text1) /\
  Money.hasSameCurrency m1 m2 = (currencyStr text1 =? currencyStr text2)%string /\
  Money.hasSameCurrency m1 m2 = Money.hasSameCurrency m2 m1.
Proof.
  intros Hkeys H1 H2.
  apply parse_currency in H1 as (c1 & H1 & E1).
  apply parse_currency in H2 as (c2 & H2 & E2).
  apply Hkeys in H1. apply Hkeys in H2.
  unfold Money.hasSameCurrency, Currency.equals, Currency.code.
  rewrite E1, E2. simpl. rewrite H1, H2. repeat split. apply String.eqb_sym.
Qed.

(** Property X10.  A text that starts with a space has an empty amount
    token, and [Money.parse] never accepts it.  It throws
    [MoneyParseException] with the whole text when the currency token is
    a key of the module object or names a member of [Object.prototype],
    and [InvalidCurrencyException] with the currency token otherwise. *)
Theorem parse_empty_amount (rest : string) :
  let text := String " " rest in
  Money.parse currencies text =
    if bool_decide (is_Some (currencies !! currencyStr text) \/
                    currencyStr text ∈ Object_prototype)
    then Throw (MoneyParseException ("Impossible to parse money: " ++ text))
    else Throw (InvalidCurrencyException
                  ("Invalid currency: '" ++ currencyStr text ++ "'")).
Proof.
  intros text. subst text. rewrite parse_unfold.
  destruct (currencies !! currencyStr (String " " rest)) as [[c|]|] eqn:E.
  - rewrite bool_decide_eq_true_2 by (left; eauto). reflexivity.
  - rewrite bool_decide_eq_true_2 by (left; eauto). reflexivity.
  - destruct (bool_decide_reflect (currencyStr (String " " rest) ∈ Object_prototype))
      as [Hin | Hin].
    + rewrite bool_decide_eq_true_2 by now right. reflexivity.
    + rewrite bool_decide_eq_false_2; [reflexivity|].
      intros [[c H] | H]; [discriminate | contradiction].
Qed.

(** Property X14.  The order of the failures of [Money.parse], for a
    table whose scales [base ** exponent] are safe integers.  A currency
    token that is neither a key of the module object nor the name of a
    member of [Object.prototype] gives [InvalidCurrencyException],
    whatever the amount token is.  A currency token that finds a member
    other than an entry gives [MoneyParseException], whatever the amount
    token is.  For the key of an entry, [MoneyParseException] with the whole
    text is thrown exactly when the amount token is not a number;
    otherwise the outcome is the constructor's on the truncated
    minor-unit amount, so that the only failure left is
    [MoneyException("Unsafe integer amount!")], and it does occur whenever
    that amount is not an integer within the envelope. *)
Theorem parse_failure_order (text : string) :
  (forall c, currencies !! currencyStr text = Some (Entry c) -> safe_scale c) ->
  (currencies !! currencyStr text = None -> currencyStr text ∉ Object_prototype ->
     Money.parse currencies text =
       Throw (InvalidCurrencyException ("Invalid currency: '" ++ currencyStr text ++ "'"))) /\
  (currencies !! currencyStr text = Some Other \/
   currencies !! currencyStr text = None /\ currencyStr text ∈ Object_prototype ->
     Money.parse currencies text =
       Throw (MoneyParseException ("Impossible to parse money: " ++ text))) /\
  (forall c, currencies !! currencyStr text = Some (Entry c) ->
     (isNaN (parseFloat (amountStr text)) = true ->
        Money.parse currencies text =
          Throw (MoneyParseException ("Impossible to parse money: " ++ text))) /\
     (isNaN (parseFloat (amountStr text)) = false ->
        let amount := trunc (Number.mul (parseFloat (amountStr text))
                               (exponentiate (dinero_base c) (dinero_exponent c))) in
        Money.parse currencies text = Money.new amount (Currency.new (Entry c)) /\
        (forall e, Money.parse currencies text = Throw e ->
           e = MoneyException "Unsafe integer amount!") /\
        (~ (exists z, to_Z amount = Some z /\ Z.abs z <= 2 ^ 53 - 1) ->
           Money.parse currencies text = Throw (MoneyException "Unsafe integer amount!")))).
Proof.
  intros Hscale. rewrite parse_unfold.
  destruct (currencies !! currencyStr text) as [[c|]|] eqn:Hc.
  - split; [discriminate|]. split; [intros [H | [H _]]; discriminate|].
    intros c' Hc'. injection Hc' as <-.
    destruct (exponentiate_finite (dinero_base c) (dinero_exponent c) (Hscale c eq_refl))
      as (m & e & Hexp).
    rewrite Hexp. cbv zeta. rewrite mul_finite_isNaN. split.
    + intros ->. reflexivity.
    + intros Hnan. rewrite Hnan. split; [reflexivity|]. split.
      * intros e0 H. now apply new_throws in H.
      * intros Hno.
        destruct (Money.new _ _) as [money|e0] eqn:E.
        -- exfalso. apply Hno.
           pose proof E as Hm. apply new_inv in Hm as [Hm _].
           apply accepted_trunc_is_safe_integer in E;
             [|rewrite mul_finite_isNaN; exact Hnan].
           now rewrite Hm in E.
        -- apply new_throws in E. now subst e0.
  - split; [discriminate|]. split; [reflexivity|]. discriminate.
  - split; [|split; [|discriminate]].
    + intros _ Hin. now rewrite bool_decide_eq_false_2.
    + intros [H | [_ Hin]]; [discriminate|]. now rewrite bool_decide_eq_true_2.
Qed.

End Table.

Lemma parse_failure_order_witness :
  Money.parse sample_currencies "1e300 EUR" =
    Throw (MoneyException "Unsafe integer amount!").
Proof.
  destruct (parse_failure_order sample_currencies "1e300 EUR") as (_ & _ & H).
  - intros c Hc. vm_compute in Hc. injection Hc as <-. vm_compute. reflexivity.
  - destruct (H EUR eq_refl) as (_ & H').
    destruct (H' eq_refl) as (_ & _ & H'').
    apply H''. intros (z & Hz & Hb).
    vm_compute in Hz. injection Hz as <-. vm_compute in Hb. now apply Hb.
Defined.

Lemma parsed_same_currency_witness :
  exists m1 m2,
    Money.parse sample_currencies "87.34 EUR" = Ok m1 /\
    Money.parse sample_currencies "87.34 USD" = Ok m2 /\
    Money.hasSameCurrency m1 m2 = false.
Proof.
  eexists _, _. split; [vm_compute; reflexivity|]. split; [vm_compute; reflexivity|].
  exact (proj1 (proj2 (parsed_same_currency sample_currencies "87.34 EUR" "87.34 USD" _ _
                  CurrencySpec.sample_currencies_keys eq_refl eq_refl))).
Defined.

End MoneyLaws.
